(** * The OLED display renderer of the power monitor (pmon_oled/arduino/display.cpp)

    A shallow embedding of the [display] namespace: the circular graph
    buffer, the current-to-pixel mapping, the display-message state and
    the three render entry points.  Integers of the firmware are [Z] with
    the wrap-around of their C type written out, the [graph_y_points]
    array is a list accessed with checked reads and writes (an access
    outside the array has no result), and calls to the u8glib surface
    are collected in a trace. *)

From Stdlib Require Import ZArith List String Sorted Reals Lra Lia.
From stdpp Require Import base tactics option list.

Local Open Scope Z_scope.

(** ** Machine integers *)

(** [uint8] and [uint16] arithmetic wraps around. *)
Definition wrap8 (z : Z) : Z := z mod 256.
Definition wrap16 (z : Z) : Z := z mod 65536.

(** ** Floating point

    [log] and the arithmetic of [double] belong to the platform (avr-libc,
    where [double] is IEEE binary32).  A float is represented by the real
    number it denotes; the operations are the platform's. *)
Class FloatOps := {
  fl_of_uint : Z -> R;          (* conversion of an unsigned integer *)
  fl_log : R -> R;              (* log() of math.h *)
  fl_mul : R -> R -> R;
  fl_sub : R -> R -> R;
  fl_add : R -> R -> R
}.

(** Conversion of a floating value to [int] discards the fractional part
    (truncation toward zero). *)
Definition fl_to_int (r : R) : Z :=
  if Rlt_dec r 0 then - Int_part (- r) else Int_part r.

(** Unit roundoff granted to the platform: [2^-21], eight times the
    half-ulp [2^-24] of binary32. *)
Definition fl_eps : R := (/ 2097152)%R.

(** Results of the magnitudes this program computes are normal numbers
    far from overflow and underflow. *)
Definition fl_normal (r : R) : Prop := (/ 2 <= Rabs r <= 64)%R.

(** The standard model of floating-point arithmetic: integers of 16 bits
    convert exactly, and an operation whose exact result is in the normal
    range returns it with a relative error of at most [fl_eps]. *)
Record FloatAccurate (F : FloatOps) : Prop := {
  acc_of_uint : forall n, 0 <= n < 65536 -> fl_of_uint n = IZR n;
  acc_log : forall x, fl_normal (ln x) ->
    (Rabs (fl_log x - ln x) <= fl_eps * Rabs (ln x))%R;
  acc_mul : forall x y, fl_normal (x * y) ->
    (Rabs (fl_mul x y - x * y) <= fl_eps * Rabs (x * y))%R;
  acc_sub : forall x y, fl_normal (x - y) ->
    (Rabs (fl_sub x y - (x - y)) <= fl_eps * Rabs (x - y))%R;
  acc_add : forall x y, fl_normal (x + y) ->
    (Rabs (fl_add x y - (x + y)) <= fl_eps * Rabs (x + y))%R
}.

(** Arithmetic without rounding, the limit case of the model. *)
Definition exact_float : FloatOps :=
  {| fl_of_uint := IZR; fl_log := ln;
     fl_mul := Rmult; fl_sub := Rminus; fl_add := Rplus |}.

(** Arithmetic that is off in every operation: results too large by the
    factor [1 + 2^-22], the logarithm too small by it. *)
Definition skewed_float : FloatOps :=
  {| fl_of_uint := IZR;
     fl_log := fun x => (ln x * (1 - / 4194304))%R;
     fl_mul := fun x y => (x * y * (1 + / 4194304))%R;
     fl_sub := fun x y => ((x - y) * (1 + / 4194304))%R;
     fl_add := fun x y => ((x + y) * (1 + / 4194304))%R |}.

(** ** External collaborators *)

(** Message codes of display_message.h, which is not among the sources:
    three [uint8] constants. *)
Class MessageCodes := {
  kNone : Z;
  kSplashScreen : Z;
  kAnalysisReset : Z
}.

(** A numbering of the codes, for concrete runs. *)
Definition codes_0_1_2 : MessageCodes :=
  {| kNone := 0; kSplashScreen := 1; kAnalysisReset := 2 |}.

(** [snprintf] with one integer argument: buffer size, format, value. *)
Class Libc := {
  snprintf : Z -> string -> Z -> string
}.

Definition libc_echo : Libc := {| snprintf := fun _ fmt _ => fmt |}.

(** The page protocol of u8glib: after [firstPage], [nextPage] answers
    true [u8g_more_pages] times and then false (three times for the 2X
    buffer of the 128x64 device: four drawing passes). *)
Class U8glib := {
  u8g_more_pages : nat
}.

Definition u8g_128x64_2x : U8glib := {| u8g_more_pages := 3 |}.

Inductive u8g_font := u8g_font_8x13.

(** Calls made on the [u8g] object. *)
Inductive u8g_call :=
| SetColorIndex (c : Z)
| SetFont (f : u8g_font)
| DrawStr (x y : Z) (s : string)
| DrawLine (x1 y1 x2 y2 : Z)
| DrawRFrame (x y w h r : Z)
| FirstPage
| NextPage.

(** Modelled from the spec: PassiveTimer (passive_timer.h is not among the
    sources), a monotonic millisecond elapsed-time reader with restart.
    The timer remembers the clock reading of its last restart; the clock
    reading [now] is passed to every operation that looks at it. *)
Record PassiveTimer := { start_time_millis : Z }.

Definition restart (now : Z) : PassiveTimer := {| start_time_millis := now |}.
Definition timeMillis (now : Z) (t : PassiveTimer) : Z := now - start_time_millis t.

(** ** State of the display module (its file-scope statics) *)

Definition kGraphMaxPoints : Z := 64.

Record display_state := {
  current_display_message_code : Z;
  current_display_message_min_time_millis : Z;
  time_in_current_display_message : PassiveTimer;
  graph_y_points : list Z;
  graph_first_y_index : Z;
  graph_active_y_count : Z
}.

Definition set_message (code min_time : Z) (t : PassiveTimer) (st : display_state) :=
  {| current_display_message_code := code;
     current_display_message_min_time_millis := min_time;
     time_in_current_display_message := t;
     graph_y_points := graph_y_points st;
     graph_first_y_index := graph_first_y_index st;
     graph_active_y_count := graph_active_y_count st |}.

Definition set_message_code (code : Z) (st : display_state) :=
  set_message code (current_display_message_min_time_millis st)
    (time_in_current_display_message st) st.

Definition set_graph (pts : list Z) (first count : Z) (st : display_state) :=
  {| current_display_message_code := current_display_message_code st;
     current_display_message_min_time_millis := current_display_message_min_time_millis st;
     time_in_current_display_message := time_in_current_display_message st;
     graph_y_points := pts;
     graph_first_y_index := first;
     graph_active_y_count := count |}.

(** Checked array accesses: [a[i]] and [a[i] = v] for an unsigned index. *)
Definition array_read (a : list Z) (i : Z) : option Z := a !! Z.to_nat i.

Definition array_write (a : list Z) (i v : Z) : option (list Z) :=
  if decide (Z.to_nat i < length a)%nat then Some (<[Z.to_nat i := v]> a) else None.

(** ** The graph buffer *)

Definition clearGraphBuffer (st : display_state) : display_state :=
  set_graph (graph_y_points st) 0 0 st.

(** The [uint8] behind the pointer is incremented and, when it reaches
    [kGraphMaxPoints], set back to zero. *)
Definition incrementGraphIndex (index : Z) : Z :=
  let index := wrap8 (index + 1) in
  if kGraphMaxPoints <=? index then 0 else index.

Section Display.
Context {F : FloatOps} {M : MessageCodes} {L : Libc} {U : U8glib}.

Definition kA : Z := 30.
Definition kB : Z := 7.
Definition kC : Z := 23.

(** [0.5f + ((log(current_milli_amps + kA) * kB) - kC)], converted to [int]. *)
Definition scalledValue (current_milli_amps : Z) : Z :=
  fl_to_int
    (fl_add (/ 2)%R
       (fl_sub (fl_mul (fl_log (fl_of_uint (wrap16 (current_milli_amps + kA))))
                       (fl_of_uint kB))
               (fl_of_uint kC))).

Definition currentMilliAmpsToDisplayY (current_milli_amps : Z) : Z :=
  let current_milli_amps :=
    if 2000 <? current_milli_amps then 2000 else current_milli_amps in
  wrap8 (63 - scalledValue current_milli_amps).

Definition appendGraphPoint (current_milli_amps : Z) (st : display_state)
  : option display_state :=
  let y_value := currentMilliAmpsToDisplayY current_milli_amps in
  if decide (graph_active_y_count st = kGraphMaxPoints) then
    pts ← array_write (graph_y_points st) (graph_first_y_index st) y_value;
    Some (set_graph pts (incrementGraphIndex (graph_first_y_index st))
            (graph_active_y_count st) st)
  else
    let insertion_index := wrap8 (graph_first_y_index st + graph_active_y_count st) in
    let insertion_index :=
      if kGraphMaxPoints <=? insertion_index
      then wrap8 (insertion_index - kGraphMaxPoints) else insertion_index in
    pts ← array_write (graph_y_points st) insertion_index y_value;
    Some (set_graph pts (graph_first_y_index st)
            (wrap8 (graph_active_y_count st + 1)) st).

(** A run of [appendGraphPoint] calls, first sample first. *)
Fixpoint appendGraphPoints (samples : list Z) (st : display_state)
  : option display_state :=
  match samples with
  | [] => Some st
  | v :: rest => st' ← appendGraphPoint v st; appendGraphPoints rest st'
  end.

(** The entries of the buffer, read from the oldest index for [n] steps,
    the index advancing as in [incrementGraphIndex]. *)
Fixpoint graph_read_from (a : list Z) (index : Z) (n : nat) : option (list Z) :=
  match n with
  | O => Some []
  | S n' =>
      y ← array_read a index;
      ys ← graph_read_from a (incrementGraphIndex index) n';
      Some (y :: ys)
  end.

Definition graph_entries (st : display_state) : option (list Z) :=
  graph_read_from (graph_y_points st) (graph_first_y_index st)
    (Z.to_nat (graph_active_y_count st)).

(** ** Picture loops *)

(** The body of [for (uint8 i = 1; i < graph_active_y_count; i++)] in
    drawGraphPage, run [n] times; it returns the lines drawn and the last
    x coordinate. *)
Fixpoint graph_segments (a : list Z) (n : nat) (index last_x last_y : Z)
  : option (list u8g_call * Z) :=
  match n with
  | O => Some ([], last_x)
  | S n' =>
      let index := wrap8 (index + 1) in
      let index := if kGraphMaxPoints <=? index then 0 else index in
      y ← array_read a index;
      let x := wrap8 (last_x + 2) in
      r ← graph_segments a n' index x y;
      Some (DrawLine last_x last_y x y :: r.1, r.2)
  end.

Definition drawGraphPage (drawing_stripe_index : Z) (current average_current : string)
    (st : display_state) : option (list u8g_call) :=
  let t0 :=
    if drawing_stripe_index =? 0
    then [SetFont u8g_font_8x13; DrawStr 0 10 "Current"; DrawStr 70 10 current]
    else [] in
  let t1 :=
    if drawing_stripe_index =? 1
    then [SetFont u8g_font_8x13; DrawStr 0 25 "Average"; DrawStr 70 25 average_current]
    else [] in
  t2 ← (if 2 <=? drawing_stripe_index then
          last_y ← array_read (graph_y_points st) (graph_first_y_index st);
          r ← graph_segments (graph_y_points st)
                 (Z.to_nat (graph_active_y_count st - 1))
                 (graph_first_y_index st) 0 last_y;
          Some (r.1 ++ [DrawLine (wrap8 (r.2 + 1)) 63 (wrap8 (r.2 + 1)) 32])
        else Some []);
  let t3 :=
    if drawing_stripe_index =? 3 then [DrawLine 0 63 127 63] else [] in
  Some (t0 ++ t1 ++ t2 ++ t3).

Definition drawSummaryPage (drawing_stripe_index : Z)
    (current_milli_amps average_current_milli_amps total_charge_mah time_seconds : Z)
  : list u8g_call :=
  [SetFont u8g_font_8x13]
  ++ (if drawing_stripe_index =? 0 then
        [DrawStr 0 10 "I"; DrawStr 65 10 (snprintf 12 "%4d" current_milli_amps);
         DrawStr 103 10 "ma"] else [])
  ++ (if drawing_stripe_index =? 1 then
        [DrawStr 0 27 "Iavg"; DrawStr 65 27 (snprintf 12 "%4d" average_current_milli_amps);
         DrawStr 103 27 "ma"] else [])
  ++ (if drawing_stripe_index =? 2 then
        [DrawStr 0 44 "Q"; DrawStr 65 44 (snprintf 12 "%4d" total_charge_mah);
         DrawStr 103 44 "mah"] else [])
  ++ (if drawing_stripe_index =? 3 then
        [DrawStr 0 61 "T"; DrawStr 49 61 (snprintf 12 "%6d" time_seconds);
         DrawStr 101 61 "sec"] else []).

Definition drawCurrentDisplayMessage (st : display_state) : list u8g_call :=
  [SetFont u8g_font_8x13; DrawRFrame 0 0 128 64 5]
  ++ (if current_display_message_code st =? kSplashScreen then
        [DrawStr 22 19 "Power Play"; DrawStr 30 37 "UNO OLED"; DrawStr 27 54 "Ver 0.100"]
      else if current_display_message_code st =? kAnalysisReset then
        [DrawStr 27 26 "Analysis"; DrawStr 27 45 "Restarted"]
      else
        [DrawStr 0 30 "Message: ";
         DrawStr 65 30 (snprintf 12 "%4d" (current_display_message_code st))]).

(** [do { body(stripe++) } while (u8g.nextPage())]: the body runs once and
    then once more for every true answer of [nextPage]. *)
Fixpoint picture_loop {E} (body : Z -> E) (more : nat) (stripe : Z) : list E :=
  body stripe ::
  match more with
  | O => []
  | S more' => picture_loop body more' (wrap8 (stripe + 1))
  end.

(** The trace of a whole picture loop from the passes' traces. *)
Definition pages_trace (passes : list (list u8g_call)) : list u8g_call :=
  FirstPage :: concat (map (fun t => t ++ [NextPage]) passes).

(** ** Entry points *)

Definition setup (now : Z) (st : display_state) : list u8g_call * display_state :=
  ([SetColorIndex 1], clearGraphBuffer (set_message kNone 0 (restart now) st)).

Definition isActiveDisplayMessage (now : Z) (st : display_state) : bool * display_state :=
  if current_display_message_code st =? kNone then (false, st)
  else if timeMillis now (time_in_current_display_message st)
            <? current_display_message_min_time_millis st then (true, st)
  else (false, set_message_code kNone st).

Definition renderGraphPage (now : Z) (current_milli_amps average_current_milli_amps : Z)
    (st : display_state) : option (list u8g_call * display_state) :=
  let '(active, st) := isActiveDisplayMessage now st in
  if active then Some ([], st)
  else
    let bfr1 := snprintf 10 "%4d ma" current_milli_amps in
    let bfr2 := snprintf 10 "%4d ma" average_current_milli_amps in
    passes ← mapM (fun p => p)
      (picture_loop (fun stripe => drawGraphPage stripe bfr1 bfr2 st) u8g_more_pages 0);
    Some (pages_trace passes, st).

Definition renderSummaryPage (now : Z)
    (current_milli_amps average_current_milli_amps total_charge_mah time_seconds : Z)
    (st : display_state) : list u8g_call * display_state :=
  let '(active, st) := isActiveDisplayMessage now st in
  if active then ([], st)
  else
    (pages_trace
       (picture_loop
          (fun stripe => drawSummaryPage stripe current_milli_amps
                           average_current_milli_amps total_charge_mah time_seconds)
          u8g_more_pages 0),
     st).

Definition renderCurrentDisplayMessage (st : display_state) : list u8g_call :=
  pages_trace (picture_loop (fun _ => drawCurrentDisplayMessage st) u8g_more_pages 0).

Definition activateDisplayMessage (now : Z) (display_message_code min_display_time_millis : Z)
    (st : display_state) : list u8g_call * display_state :=
  let previous_display_message_code := current_display_message_code st in
  let st := set_message display_message_code min_display_time_millis (restart now) st in
  if (display_message_code =? kNone)
     || (display_message_code =? previous_display_message_code)
  then ([], st)
  else (renderCurrentDisplayMessage st, st).

(** Successive [isActiveDisplayMessage] calls at the given clock readings. *)
Fixpoint isActiveDisplayMessage_calls (times : list Z) (st : display_state)
  : list bool * display_state :=
  match times with
  | [] => ([], st)
  | now :: rest =>
      let '(active, st) := isActiveDisplayMessage now st in
      let '(answers, st) := isActiveDisplayMessage_calls rest st in
      (active :: answers, st)
  end.

(** A message is active: there is a code and its minimum time has not
    elapsed at the clock reading [now]. *)
Definition message_active (now : Z) (st : display_state) : Prop :=
  current_display_message_code st <> kNone /\
  timeMillis now (time_in_current_display_message st)
    < current_display_message_min_time_millis st.

End Display.

(** The lines that join the point [(last_x, last_y)] to the values [ys],
    two pixels apart, and the x coordinate of the last point. *)
Fixpoint polyline (last_x last_y : Z) (ys : list Z) : list u8g_call * Z :=
  match ys with
  | [] => ([], last_x)
  | y :: ys' =>
      let x := wrap8 (last_x + 2) in
      let r := polyline x y ys' in
      (DrawLine last_x last_y x y :: r.1, r.2)
  end.

(** The statics as the C runtime leaves them before [setup]: zeroed. *)
Definition power_on_state : display_state :=
  {| current_display_message_code := 0;
     current_display_message_min_time_millis := 0;
     time_in_current_display_message := {| start_time_millis := 0 |};
     graph_y_points := replicate (Z.to_nat kGraphMaxPoints) 0;
     graph_first_y_index := 0;
     graph_active_y_count := 0 |}.

(** The splash message (code 1 in [codes_0_1_2]) requested at clock 0
    for one second, nothing in the graph buffer. *)
Definition splash_state : display_state :=
  set_message 1 1000 (restart 0) power_on_state.

(** Two points in the buffer, at rows 40 and 50. *)
Definition two_point_state : display_state :=
  set_graph (<[1%nat := 50]> (<[0%nat := 40]> (graph_y_points power_on_state)))
    0 2 power_on_state.

(** The bounds the graph indices are kept in. *)
Definition graph_indices_ok (st : display_state) : Prop :=
  0 <= graph_first_y_index st < kGraphMaxPoints /\
  0 <= graph_active_y_count st <= kGraphMaxPoints.

(** The array has its declared size. *)
Definition graph_array_ok (st : display_state) : Prop :=
  length (graph_y_points st) = Z.to_nat kGraphMaxPoints.

(** The last [kGraphMaxPoints] elements of a list. *)
Definition last_points (l : list Z) : list Z :=
  drop (length l - Z.to_nat kGraphMaxPoints) l.

(** The buffer holds the values [l], oldest first: entry [i] is in the
    slot [i] steps after the oldest index, around the end of the array. *)
Definition graph_holds (st : display_state) (l : list Z) : Prop :=
  graph_array_ok st /\
  0 <= graph_first_y_index st < kGraphMaxPoints /\
  graph_active_y_count st = Z.of_nat (length l) /\
  (length l <= Z.to_nat kGraphMaxPoints)%nat /\
  forall i : nat, (i < length l)%nat ->
    graph_y_points st
      !! Z.to_nat ((graph_first_y_index st + Z.of_nat i) mod kGraphMaxPoints)
    = l !! i.

(** ** The mapping in exact arithmetic

    What [scalledValue] computes before rounding, and the integer it
    truncates to, tabulated: each entry [(lo, hi, k)] says that the
    arguments [lo..hi] of [log] give [k]. *)

Definition log_curve (n : Z) : R := (7 * ln (IZR n) - 45 / 2)%R.

Definition scaled_segments : list (Z * Z * Z) :=
  [(30, 33, 1); (34, 38, 2); (39, 44, 3); (45, 50, 4); (51, 58, 5);
   (59, 67, 6); (68, 78, 7); (79, 90, 8); (91, 103, 9); (104, 119, 10);
   (120, 138, 11); (139, 159, 12); (160, 183, 13); (184, 212, 14);
   (213, 244, 15); (245, 282, 16); (283, 325, 17); (326, 375, 18);
   (376, 433, 19); (434, 499, 20); (500, 576, 21); (577, 665, 22);
   (666, 767, 23); (768, 885, 24); (886, 1021, 25); (1022, 1177, 26);
   (1178, 1358, 27); (1359, 1567, 28); (1568, 1808, 29); (1809, 2030, 30)].

Definition segment_covers (n : Z) (s : Z * Z * Z) : bool :=
  (s.1.1 <=? n) && (n <=? s.1.2).

Definition scaled_table (n : Z) : Z :=
  match find (segment_covers n) scaled_segments with
  | Some s => s.2
  | None => 0
  end.

(** Distance kept between [log_curve] and the integers on [30..2030]. *)
Definition curve_margin : R := (/ 8192)%R.

(** *** Bounds on [exp] by repeated squaring in fixed point

    [exp (a / b)] is enclosed from [1 + x <= exp x <= 1 / (1 - x)] at
    [x = a / (b * 2^30)], squared thirty times with 80 fractional bits,
    rounding down for the lower and up for the upper bound. *)

Definition fx_one : Z := 2 ^ 80.
Definition fx_real (x : Z) : R := (IZR x / IZR fx_one)%R.
Definition fx_sq_lo (x : Z) : Z := x * x / fx_one.
Definition fx_sq_hi (x : Z) : Z := x * x / fx_one + 1.

Definition exp_lo (a b : Z) : Z :=
  Nat.iter 30 fx_sq_lo (fx_one + fx_one * a / (b * 2 ^ 30)).

Definition exp_hi (a b : Z) : Z :=
  Nat.iter 30 fx_sq_hi (fx_one * (b * 2 ^ 30) / (b * 2 ^ 30 - a) + 1).

(** The check that a table entry is right with the margin to spare:
    [exp ((k + 45/2 + 1/8192) / 7) <= lo] and
    [hi <= exp ((k + 1 + 45/2 - 1/8192) / 7)]. *)
Definition segment_ok (s : Z * Z * Z) : bool :=
  let '(lo, hi, k) := s in
  (0 <? lo) && (0 <=? k) && (k <? 64)
  && (exp_hi (8192 * k + 184321) 57344 <=? lo * fx_one)
  && (hi * fx_one <=? exp_lo (8192 * (k + 1) + 184319) 57344).

(** ** The module seen from its callers *)

(** The segments through the values [l], drawn from column [x] on and two
    pixels apart, in unbounded arithmetic. *)
Fixpoint graph_lines (x : Z) (l : list Z) : list u8g_call :=
  match l with
  | [] => []
  | y1 :: rest =>
      match rest with
      | [] => []
      | y2 :: _ => DrawLine x y1 (x + 2) y2 :: graph_lines (x + 2) rest
      end
  end.

(** A line that stays on the 128 columns of the panel and in the rows
    32..63 of the plot band; calls other than lines are not concerned. *)
Definition in_plot_band (c : u8g_call) : Prop :=
  match c with
  | DrawLine x1 y1 x2 y2 =>
      0 <= x1 <= 127 /\ 0 <= x2 <= 127 /\ 32 <= y1 <= 63 /\ 32 <= y2 <= 63
  | _ => True
  end.

Definition is_FirstPage (c : u8g_call) : bool :=
  match c with FirstPage => true | _ => false end.

Definition is_NextPage (c : u8g_call) : bool :=
  match c with NextPage => true | _ => false end.

(** Neither [firstPage] nor [nextPage]. *)
Definition plain_call (c : u8g_call) : Prop :=
  is_FirstPage c = false /\ is_NextPage c = false.

(** How many calls of a trace satisfy [p]. *)
Definition count_calls (p : u8g_call -> bool) (t : list u8g_call) : nat :=
  length (List.filter p t).

(** The strings a trace draws, in order. *)
Definition drawn_strings (t : list u8g_call) : list string :=
  omap (fun c => match c with DrawStr _ _ s => Some s | _ => None end) t.

(** A current that the mapping sends to the row [r], for the rows it uses. *)
Definition row_current (r : Z) : Z :=
  match find (fun s : Z * Z * Z => s.2 =? 63 - r) scaled_segments with
  | Some s => s.1.1 - 30
  | None => 0
  end.

(** The non-static functions of the namespace, as calls. *)
Inductive display_call :=
| CallSetup (now : Z)
| CallClearGraphBuffer
| CallAppendGraphPoint (current_milli_amps : Z)
| CallRenderGraphPage (now current_milli_amps average_current_milli_amps : Z)
| CallRenderSummaryPage
    (now current_milli_amps average_current_milli_amps total_charge_mah time_seconds : Z)
| CallRenderCurrentDisplayMessage
| CallActivateDisplayMessage (now display_message_code min_display_time_millis : Z).

(** What the panel shows is what the last picture loop painted: a trace
    that opens a picture loop replaces it, any other trace leaves it. *)
Definition shown_after (t shown : list u8g_call) : list u8g_call :=
  match t with
  | FirstPage :: _ => t
  | _ => shown
  end.

Section Calls.
Context {F : FloatOps} {M : MessageCodes} {L : Libc} {U : U8glib}.

Definition run_call (call : display_call) (st : display_state)
  : option (list u8g_call * display_state) :=
  match call with
  | CallSetup now => Some (setup now st)
  | CallClearGraphBuffer => Some ([], clearGraphBuffer st)
  | CallAppendGraphPoint v => st' ← appendGraphPoint v st; Some ([], st')
  | CallRenderGraphPage now c a => renderGraphPage now c a st
  | CallRenderSummaryPage now c a q t => Some (renderSummaryPage now c a q t st)
  | CallRenderCurrentDisplayMessage => Some (renderCurrentDisplayMessage st, st)
  | CallActivateDisplayMessage now code d => Some (activateDisplayMessage now code d st)
  end.

(** A sequence of calls, with the state and what the panel shows. *)
Fixpoint run_calls (calls : list display_call) (st : display_state)
    (shown : list u8g_call) : option (display_state * list u8g_call) :=
  match calls with
  | [] => Some (st, shown)
  | call :: rest =>
      r ← run_call call st;
      run_calls rest r.2 (shown_after r.1 shown)
  end.

End Calls.


(** * Properties *)

(** ** Enclosures of [exp] and [ln] *)

Section ExpBounds.
Local Open Scope R_scope.

Lemma Rle_div_r a b d : 0 < d -> a * d <= b -> a <= b / d.
Proof.
  intros Hd H. apply Rmult_le_reg_r with d; [lra|].
  unfold Rdiv. rewrite Rmult_assoc, Rinv_l, Rmult_1_r; lra.
Qed.

Lemma Rle_div_l a b d : 0 < d -> a <= b * d -> a / d <= b.
Proof.
  intros Hd H. apply Rmult_le_reg_r with d; [lra|].
  unfold Rdiv. rewrite Rmult_assoc, Rinv_l, Rmult_1_r; lra.
Qed.

Lemma IZR_div_floor n d : (0 < d)%Z -> IZR (n / d) <= IZR n / IZR d.
Proof.
  intros Hd. assert (0 < IZR d) by (apply IZR_lt; lia).
  apply Rle_div_r; [lra|]. rewrite <- mult_IZR. apply IZR_le.
  rewrite Z.mul_comm. apply Z.mul_div_le. lia.
Qed.

Lemma IZR_div_ceil n d : (0 < d)%Z -> IZR n / IZR d <= IZR (n / d + 1).
Proof.
  intros Hd. assert (0 < IZR d) by (apply IZR_lt; lia).
  apply Rle_div_l; [lra|]. rewrite <- mult_IZR. apply IZR_le.
  pose proof (Z.div_mod n d ltac:(lia)). pose proof (Z.mod_pos_bound n d Hd). nia.
Qed.

Lemma fx_one_pos : 0 < IZR fx_one.
Proof. apply IZR_lt. reflexivity. Qed.

Lemma fx_sq_lo_sound x y :
  (0 <= x)%Z -> fx_real x <= exp y ->
  (0 <= fx_sq_lo x)%Z /\ fx_real (fx_sq_lo x) <= exp (y + y).
Proof.
  intros Hx Hy. pose proof fx_one_pos as HP. split.
  - unfold fx_sq_lo. apply Z.div_pos; [nia | reflexivity].
  - rewrite exp_plus. unfold fx_real, fx_sq_lo in *.
    assert (Hx' : 0 <= IZR x / IZR fx_one).
    { apply Rle_mult_inv_pos; [apply IZR_le; lia | lra]. }
    apply Rle_trans with ((IZR x / IZR fx_one) * (IZR x / IZR fx_one)).
    + pose proof (IZR_div_floor (x * x) fx_one ltac:(reflexivity)) as Hd.
      rewrite mult_IZR in Hd.
      apply Rle_div_l; [lra|].
      replace (IZR x / IZR fx_one * (IZR x / IZR fx_one) * IZR fx_one)
        with (IZR x * IZR x / IZR fx_one) by (field; lra).
      exact Hd.
    + apply Rmult_le_compat; lra.
Qed.

Lemma fx_sq_hi_sound x y :
  exp y <= fx_real x -> exp (y + y) <= fx_real (fx_sq_hi x).
Proof.
  intros Hy. pose proof fx_one_pos as HP. pose proof (exp_pos y) as He.
  rewrite exp_plus. unfold fx_real, fx_sq_hi in *.
  apply Rle_trans with ((IZR x / IZR fx_one) * (IZR x / IZR fx_one)).
  - apply Rmult_le_compat; lra.
  - pose proof (IZR_div_ceil (x * x) fx_one ltac:(reflexivity)) as Hd.
    rewrite mult_IZR in Hd.
    apply Rle_div_r; [lra|].
    replace (IZR x / IZR fx_one * (IZR x / IZR fx_one) * IZR fx_one)
      with (IZR x * IZR x / IZR fx_one) by (field; lra).
    exact Hd.
Qed.

Lemma fx_iter_lo_sound n : forall x y,
  (0 <= x)%Z -> fx_real x <= exp y ->
  fx_real (Nat.iter n fx_sq_lo x) <= exp (y * 2 ^ n).
Proof.
  induction n as [|n IH]; intros x y Hx Hy.
  - simpl. now rewrite Rmult_1_r.
  - rewrite Nat.iter_succ_r.
    destruct (fx_sq_lo_sound x y Hx Hy) as [H0 H1].
    specialize (IH _ _ H0 H1).
    replace (y * 2 ^ S n) with ((y + y) * 2 ^ n) by (simpl; ring). exact IH.
Qed.

Lemma fx_iter_hi_sound n : forall x y,
  exp y <= fx_real x ->
  exp (y * 2 ^ n) <= fx_real (Nat.iter n fx_sq_hi x).
Proof.
  induction n as [|n IH]; intros x y Hy.
  - simpl. now rewrite Rmult_1_r.
  - rewrite Nat.iter_succ_r.
    specialize (IH _ _ (fx_sq_hi_sound x y Hy)).
    replace (y * 2 ^ S n) with ((y + y) * 2 ^ n) by (simpl; ring). exact IH.
Qed.

Lemma pow2_30 : 2 ^ 30 = IZR (2 ^ 30)%Z.
Proof. rewrite (pow_IZR 2 30). reflexivity. Qed.

Lemma exp_lo_sound a b :
  (0 <= a)%Z -> (0 < b)%Z -> fx_real (exp_lo a b) <= exp (IZR a / IZR b).
Proof.
  intros Ha Hb. unfold exp_lo.
  pose proof fx_one_pos as HP.
  assert (HD : 0 < IZR (b * 2 ^ 30)) by (apply IZR_lt; lia).
  assert (Hb' : 0 < IZR b) by (apply IZR_lt; lia).
  replace (IZR a / IZR b) with (IZR a / IZR (b * 2 ^ 30) * 2 ^ 30).
  2:{ rewrite mult_IZR, pow2_30. field. split; [|lra]. apply not_0_IZR. lia. }
  apply fx_iter_lo_sound.
  - assert (0 <= fx_one * a / (b * 2 ^ 30))%Z by (apply Z.div_pos; [|lia]; unfold fx_one; lia).
    unfold fx_one in *. lia.
  - eapply Rle_trans; [|apply exp_ineq1_le].
    unfold fx_real. rewrite plus_IZR.
    pose proof (IZR_div_floor (fx_one * a) (b * 2 ^ 30) ltac:(lia)) as Hd.
    rewrite mult_IZR in Hd.
    apply Rle_div_l; [lra|].
    replace ((1 + IZR a / IZR (b * 2 ^ 30)) * IZR fx_one)
      with (IZR fx_one + IZR fx_one * IZR a / IZR (b * 2 ^ 30)) by (field; lra).
    lra.
Qed.

Lemma exp_hi_sound a b :
  (0 <= a)%Z -> (0 < b)%Z -> (a < b * 2 ^ 30)%Z ->
  exp (IZR a / IZR b) <= fx_real (exp_hi a b).
Proof.
  intros Ha Hb Hab. unfold exp_hi.
  pose proof fx_one_pos as HP.
  set (D := (b * 2 ^ 30)%Z) in *.
  assert (HD : 0 < IZR D) by (apply IZR_lt; lia).
  assert (HDa : 0 < IZR (D - a)) by (apply IZR_lt; lia).
  assert (Hb' : 0 < IZR b) by (apply IZR_lt; lia).
  replace (IZR a / IZR b) with (IZR a / IZR D * 2 ^ 30).
  2:{ unfold D. rewrite mult_IZR, pow2_30. field. split; [|lra]. apply not_0_IZR. lia. }
  apply fx_iter_hi_sound.
  set (x := IZR a / IZR D).
  assert (Hx : 1 - x = IZR (D - a) / IZR D).
  { unfold x. rewrite minus_IZR. field. lra. }
  assert (Hx1 : 0 < 1 - x). { rewrite Hx. apply Rdiv_lt_0_compat; lra. }
  apply Rle_trans with (/ (1 - x)).
  - replace x with (- - x) at 1 by ring. rewrite exp_Ropp.
    apply Rinv_le_contravar; [lra|].
    pose proof (exp_ineq1_le (- x)). lra.
  - rewrite Hx. unfold fx_real.
    pose proof (IZR_div_ceil (fx_one * D) (D - a) ltac:(lia)) as Hd.
    rewrite mult_IZR in Hd.
    apply Rle_div_r; [lra|].
    replace (/ (IZR (D - a) / IZR D) * IZR fx_one)
      with (IZR fx_one * IZR D / IZR (D - a)) by (field; lra).
    exact Hd.
Qed.

Lemma ln_le_of_exp_lo m a b :
  (0 < m)%Z -> (0 <= a)%Z -> (0 < b)%Z ->
  (m * fx_one <= exp_lo a b)%Z -> ln (IZR m) <= IZR a / IZR b.
Proof.
  intros Hm Ha Hb Hc. pose proof fx_one_pos as HP.
  assert (Hm' : 0 < IZR m) by (apply IZR_lt; lia).
  apply Rnot_lt_le. intros Hlt. apply exp_increasing in Hlt.
  rewrite exp_ln in Hlt by exact Hm'.
  pose proof (exp_lo_sound a b Ha Hb) as Hs. unfold fx_real in Hs.
  apply IZR_le in Hc. rewrite mult_IZR in Hc.
  assert (IZR m <= IZR (exp_lo a b) / IZR fx_one) by (apply Rle_div_r; lra).
  lra.
Qed.

Lemma ln_ge_of_exp_hi m a b :
  (0 < m)%Z -> (0 <= a)%Z -> (0 < b)%Z -> (a < b * 2 ^ 30)%Z ->
  (exp_hi a b <= m * fx_one)%Z -> IZR a / IZR b <= ln (IZR m).
Proof.
  intros Hm Ha Hb Hab Hc. pose proof fx_one_pos as HP.
  assert (Hm' : 0 < IZR m) by (apply IZR_lt; lia).
  apply Rnot_lt_le. intros Hlt. apply exp_increasing in Hlt.
  rewrite exp_ln in Hlt by exact Hm'.
  pose proof (exp_hi_sound a b Ha Hb Hab) as Hs. unfold fx_real in Hs.
  apply IZR_le in Hc. rewrite mult_IZR in Hc.
  assert (IZR (exp_hi a b) / IZR fx_one <= IZR m) by (apply Rle_div_l; lra).
  lra.
Qed.

Lemma ln_IZR_le m n : (0 < m <= n)%Z -> ln (IZR m) <= ln (IZR n).
Proof.
  intros [Hm Hmn]. destruct (Z.eq_dec m n) as [->|Hne]; [lra|].
  left. apply ln_increasing; [apply IZR_lt; lia | apply IZR_lt; lia].
Qed.
End ExpBounds.

(** ** The table against the exact curve *)

Section Curve.
Local Open Scope R_scope.

Lemma segment_ok_sound lo hi k n :
  segment_ok (lo, hi, k) = true -> (lo <= n <= hi)%Z ->
  IZR k + curve_margin <= log_curve n <= IZR k + 1 - curve_margin.
Proof.
  unfold segment_ok. rewrite !andb_true_iff.
  intros [[[[Hlo Hk0] Hk] Hhi] Hlow] Hn.
  apply Z.ltb_lt in Hlo, Hk. apply Z.leb_le in Hk0, Hhi, Hlow.
  pose proof (ln_ge_of_exp_hi lo (8192 * k + 184321) 57344
                ltac:(lia) ltac:(lia) ltac:(lia) ltac:(lia) Hhi) as H1.
  pose proof (ln_le_of_exp_lo hi (8192 * (k + 1) + 184319) 57344
                ltac:(lia) ltac:(lia) ltac:(lia) Hlow) as H2.
  pose proof (ln_IZR_le lo n ltac:(lia)) as H3.
  pose proof (ln_IZR_le n hi ltac:(lia)) as H4.
  rewrite plus_IZR, mult_IZR in H1, H2. rewrite plus_IZR in H2.
  unfold log_curve, curve_margin. lra.
Qed.

Lemma scaled_segments_ok : forallb segment_ok scaled_segments = true.
Proof. vm_compute. reflexivity. Qed.

Lemma scaled_segments_cover :
  forallb (fun n => bool_decide (is_Some (find (segment_covers n) scaled_segments)))
    (seqZ 30 2001) = true.
Proof. vm_compute. reflexivity. Qed.

Lemma scaled_table_curve n :
  (30 <= n <= 2030)%Z ->
  IZR (scaled_table n) + curve_margin <= log_curve n
    <= IZR (scaled_table n) + 1 - curve_margin.
Proof.
  intros Hn. unfold scaled_table.
  pose proof scaled_segments_cover as Hc. rewrite forallb_forall in Hc.
  specialize (Hc n). rewrite <- list_elem_of_In, elem_of_seqZ in Hc.
  specialize (Hc ltac:(lia)). apply bool_decide_eq_true in Hc.
  destruct Hc as [[[lo hi] k] Hf]. rewrite Hf. simpl.
  apply find_some in Hf. destruct Hf as [Hin Hcov].
  unfold segment_covers in Hcov. simpl in Hcov.
  apply andb_true_iff in Hcov. destruct Hcov as [Ha Hb].
  apply Z.leb_le in Ha, Hb.
  pose proof scaled_segments_ok as Hok. rewrite forallb_forall in Hok.
  apply (segment_ok_sound lo hi k n); [apply Hok, Hin | lia].
Qed.

Lemma log_curve_mono m n : (0 < m <= n)%Z -> log_curve m <= log_curve n.
Proof. intros H. unfold log_curve. pose proof (ln_IZR_le m n H). lra. Qed.

Lemma scaled_table_mono m n :
  (30 <= m <= n)%Z -> (n <= 2030)%Z -> (scaled_table m <= scaled_table n)%Z.
Proof.
  intros Hm Hn.
  pose proof (scaled_table_curve m ltac:(lia)) as H1.
  pose proof (scaled_table_curve n ltac:(lia)) as H2.
  pose proof (log_curve_mono m n ltac:(lia)) as H3.
  unfold curve_margin in *.
  assert (IZR (scaled_table m) < IZR (scaled_table n) + 1) by lra.
  rewrite <- plus_IZR in H. apply lt_IZR in H. lia.
Qed.

Lemma scaled_table_range n :
  (30 <= n <= 2030)%Z -> (1 <= scaled_table n <= 30)%Z.
Proof.
  intros Hn.
  pose proof (scaled_table_mono 30 n ltac:(lia) ltac:(lia)) as H1.
  pose proof (scaled_table_mono n 2030 ltac:(lia) ltac:(lia)) as H2.
  change (scaled_table 30) with 1%Z in H1.
  change (scaled_table 2030) with 30%Z in H2. lia.
Qed.

End Curve.

(** ** The float computation against the exact curve *)

Section FloatError.
Context {F : FloatOps} (HF : FloatAccurate F).
Local Open Scope R_scope.

Ltac split_abs :=
  unfold Rabs in *;
  repeat match goal with
  | H : context [Rcase_abs ?x] |- _ => destruct (Rcase_abs x)
  | |- context [Rcase_abs ?x] => destruct (Rcase_abs x)
  end.

(** The value handed to the conversion stays within [180 * fl_eps] of
    the exact curve, less than the margin of the table. *)
Lemma float_curve_close n :
  (30 <= n <= 2030)%Z ->
  Rabs (fl_add (/ 2)
          (fl_sub (fl_mul (fl_log (fl_of_uint n)) (fl_of_uint kB)) (fl_of_uint kC))
        - log_curve n) <= 180 * fl_eps.
Proof.
  intros Hn.
  pose proof (scaled_table_curve n Hn) as Hc.
  pose proof (scaled_table_range n Hn) as Hr.
  assert (Hk1 : 1 <= IZR (scaled_table n)) by (apply IZR_le; lia).
  assert (Hk2 : IZR (scaled_table n) <= 30) by (apply IZR_le; lia).
  rewrite !(acc_of_uint F HF) by (unfold kB, kC; lia).
  unfold kB, kC, log_curve, curve_margin, fl_eps in *.
  set (l := ln (IZR n)) in *.
  assert (Hl : 3 <= l <= 8) by lra.
  pose proof (acc_log F HF (IZR n)) as H1. fold l in H1.
  set (fl := fl_log (IZR n)) in *.
  assert (H1' : Rabs (fl - l) <= / 2097152 * Rabs l).
  { apply H1. unfold fl_normal. split_abs; lra. }
  clear H1. assert (Hfl : l - 8 / 2097152 <= fl <= l + 8 / 2097152) by (split_abs; lra).
  clear H1'.
  pose proof (acc_mul F HF fl 7) as H2.
  set (fp := fl_mul fl 7) in *.
  assert (H2' : Rabs (fp - fl * 7) <= / 2097152 * Rabs (fl * 7)).
  { apply H2. unfold fl_normal. split_abs; lra. }
  clear H2.
  assert (Hfp : 7 * l - 113 / 2097152 <= fp <= 7 * l + 113 / 2097152) by (split_abs; lra).
  clear H2'.
  pose proof (acc_sub F HF fp 23) as H3.
  set (fs := fl_sub fp 23) in *.
  assert (H3' : Rabs (fs - (fp - 23)) <= / 2097152 * Rabs (fp - 23)).
  { apply H3. unfold fl_normal. split_abs; lra. }
  clear H3.
  assert (Hfs : 7 * l - 23 - 145 / 2097152 <= fs <= 7 * l - 23 + 145 / 2097152)
    by (split_abs; lra).
  clear H3'.
  pose proof (acc_add F HF (/ 2) fs) as H4.
  set (fa := fl_add (/ 2) fs) in *.
  assert (H4' : Rabs (fa - (/ 2 + fs)) <= / 2097152 * Rabs (/ 2 + fs)).
  { apply H4. unfold fl_normal. split_abs; lra. }
  clear H4.
  assert (Hfa : 7 * l - 45 / 2 - 180 / 2097152 <= fa <= 7 * l - 45 / 2 + 180 / 2097152)
    by (split_abs; lra).
  split_abs; lra.
Qed.

Lemma fl_to_int_between r k :
  (0 <= k)%Z -> IZR k <= r < IZR k + 1 -> fl_to_int r = k.
Proof.
  intros Hk Hr. assert (0 <= IZR k) by (apply IZR_le; lia).
  unfold fl_to_int. destruct (Rlt_dec r 0); [lra|].
  symmetry. apply Int_part_spec. lra.
Qed.

(** Under the accuracy model the conversion yields the table's entry. *)
Lemma scalledValue_table v :
  (0 <= v <= 2000)%Z -> scalledValue v = scaled_table (v + kA).
Proof.
  intros Hv. unfold scalledValue.
  replace (wrap16 (v + kA)) with (v + kA)%Z
    by (unfold wrap16, kA; rewrite Z.mod_small; lia).
  assert (Hn : (30 <= v + kA <= 2030)%Z) by (unfold kA; lia).
  pose proof (float_curve_close _ Hn) as Hc.
  pose proof (scaled_table_curve _ Hn) as Ht.
  pose proof (scaled_table_range _ Hn) as Hr.
  apply fl_to_int_between; [lia|].
  unfold curve_margin, fl_eps in *. split_abs; lra.
Qed.

Lemma currentMilliAmpsToDisplayY_table v :
  (0 <= v)%Z ->
  currentMilliAmpsToDisplayY v = (63 - scaled_table (Z.min v 2000 + kA))%Z.
Proof.
  intros Hv. unfold currentMilliAmpsToDisplayY.
  assert (Hm : (if (2000 <? v)%Z then 2000%Z else v) = Z.min v 2000).
  { destruct (Z.ltb_spec 2000 v); lia. }
  rewrite Hm. rewrite scalledValue_table by lia.
  pose proof (scaled_table_range (Z.min v 2000 + kA) ltac:(unfold kA; lia)).
  unfold wrap8. rewrite Z.mod_small; lia.
Qed.

End FloatError.

Lemma exact_float_accurate : FloatAccurate exact_float.
Proof.
  split; simpl; intros; try reflexivity;
    rewrite Rminus_diag, Rabs_R0; apply Rmult_le_pos;
    try apply Rabs_pos; unfold fl_eps; lra.
Qed.

Lemma skewed_float_accurate : FloatAccurate skewed_float.
Proof.
  split; simpl; intros; try reflexivity; unfold fl_eps.
  - replace (ln x * (1 - / 4194304) - ln x)%R with (ln x * - / 4194304)%R by ring.
    rewrite Rabs_mult, (Rabs_left (- / 4194304)) by lra.
    pose proof (Rabs_pos (ln x)). lra.
  - replace (x * y * (1 + / 4194304) - x * y)%R with (x * y * / 4194304)%R by ring.
    rewrite Rabs_mult, (Rabs_pos_eq (/ 4194304)) by lra.
    pose proof (Rabs_pos (x * y)). lra.
  - replace ((x - y) * (1 + / 4194304) - (x - y))%R
      with ((x - y) * / 4194304)%R by ring.
    rewrite Rabs_mult, (Rabs_pos_eq (/ 4194304)) by lra.
    pose proof (Rabs_pos (x - y)). lra.
  - replace ((x + y) * (1 + / 4194304) - (x + y))%R
      with ((x + y) * / 4194304)%R by ring.
    rewrite Rabs_mult, (Rabs_pos_eq (/ 4194304)) by lra.
    pose proof (Rabs_pos (x + y)). lra.
Qed.

(** The mapping at a few currents, the same in both arithmetics. *)
Example currentMilliAmpsToDisplayY_samples :
  map (currentMilliAmpsToDisplayY (F := exact_float)) [0; 1; 3; 4; 100; 1778; 1779; 2000; 65535]
  = [62; 62; 62; 61; 52; 34; 33; 33; 33]
  /\ map (currentMilliAmpsToDisplayY (F := skewed_float)) [0; 1; 3; 4; 100; 1778; 1779; 2000; 65535]
     = [62; 62; 62; 61; 52; 34; 33; 33; 33].
Proof.
  split; simpl.
  - rewrite !(currentMilliAmpsToDisplayY_table exact_float_accurate) by lia.
    reflexivity.
  - rewrite !(currentMilliAmpsToDisplayY_table skewed_float_accurate) by lia.
    reflexivity.
Qed.

(** ** The graph buffer *)

Section GraphBuffer.
Context {F : FloatOps}.

Lemma last_points_app (a b : list Z) :
  last_points (last_points a ++ b) = last_points (a ++ b).
Proof.
  unfold last_points.
  rewrite <- (drop_app_le a b) by lia.
  rewrite drop_drop. f_equal.
  rewrite length_drop, length_app. lia.
Qed.

Lemma last_points_short (l : list Z) :
  (length l <= Z.to_nat kGraphMaxPoints)%nat -> last_points l = l.
Proof.
  intros H. unfold last_points.
  replace (length l - Z.to_nat kGraphMaxPoints)%nat with 0%nat by lia.
  reflexivity.
Qed.

Lemma incrementGraphIndex_mod index :
  0 <= index < kGraphMaxPoints ->
  incrementGraphIndex index = (index + 1) mod kGraphMaxPoints.
Proof.
  unfold incrementGraphIndex, wrap8, kGraphMaxPoints. intros H.
  rewrite (Z.mod_small (index + 1) 256) by lia.
  destruct (Z.leb_spec 64 (index + 1)).
  - replace (index + 1) with 64 by lia. reflexivity.
  - rewrite Z.mod_small; lia.
Qed.

Lemma graph_holds_length st l :
  graph_holds st l -> graph_active_y_count st = Z.of_nat (length l).
Proof. intros H. apply H. Qed.

Lemma graph_holds_clear st :
  graph_array_ok st -> graph_holds (clearGraphBuffer st) [].
Proof.
  intros H. unfold graph_holds, graph_array_ok, clearGraphBuffer, kGraphMaxPoints in *.
  simpl. repeat split; first [exact H | lia].
Qed.

Lemma graph_holds_append v st l :
  graph_holds st l ->
  exists st', appendGraphPoint v st = Some st'
    /\ graph_holds st' (last_points (l ++ [currentMilliAmpsToDisplayY v])).
Proof.
  intros (Hlen & Hfirst & Hcount & Hl & Hget).
  unfold graph_array_ok, kGraphMaxPoints in *.
  unfold appendGraphPoint. set (y := currentMilliAmpsToDisplayY v).
  destruct (decide (graph_active_y_count st = kGraphMaxPoints)) as [Hfull|Hroom];
    unfold kGraphMaxPoints in *.
  - (* full: the oldest slot is overwritten *)
    unfold array_write. rewrite decide_True by lia. simpl.
    eexists. split; [reflexivity|].
    assert (Hn : length l = 64%nat) by lia.
    unfold last_points. rewrite length_app, Hn. simpl.
    unfold graph_holds, graph_array_ok, kGraphMaxPoints. simpl.
    rewrite length_insert, length_drop, length_app, Hn. simpl.
    rewrite incrementGraphIndex_mod by (unfold kGraphMaxPoints; lia).
    unfold kGraphMaxPoints.
    repeat split; try lia.
    + apply Z.mod_pos_bound. lia.
    + apply Z.mod_pos_bound. lia.
    + intros i Hi. rewrite lookup_drop.
      destruct (decide (i = 63%nat)) as [->|Hne].
      * replace (Z.to_nat (((graph_first_y_index st + 1) mod 64 + Z.of_nat 63) mod 64))
          with (Z.to_nat (graph_first_y_index st))
          by (f_equal; Z.to_euclidean_division_equations; lia).
        rewrite list_lookup_insert_eq by lia.
        rewrite lookup_app_r by lia. rewrite Hn. reflexivity.
      * rewrite list_lookup_insert_ne
          by (intros Heq; apply Z2Nat.inj in Heq;
              Z.to_euclidean_division_equations; lia).
        rewrite lookup_app_l by lia.
        rewrite <- (Hget (1 + i)%nat) by lia.
        f_equal. f_equal. Z.to_euclidean_division_equations; lia.
  - (* room left: the value goes behind the newest entry *)
    assert (Hn : (length l < 64)%nat) by lia.
    set (ins := (graph_first_y_index st + graph_active_y_count st) mod 64).
    assert (Hins : (if 64 <=? wrap8 (graph_first_y_index st + graph_active_y_count st)
                    then wrap8 (wrap8 (graph_first_y_index st + graph_active_y_count st) - 64)
                    else wrap8 (graph_first_y_index st + graph_active_y_count st)) = ins).
    { unfold wrap8, ins.
      rewrite (Z.mod_small (_ + _) 256) by lia.
      destruct (Z.leb_spec 64 (graph_first_y_index st + graph_active_y_count st)).
      - rewrite (Z.mod_small (_ - 64) 256) by lia.
        Z.to_euclidean_division_equations; lia.
      - rewrite Z.mod_small; lia. }
    rewrite Hins.
    assert (Hins' : 0 <= ins < 64) by (apply Z.mod_pos_bound; lia).
    unfold array_write. rewrite decide_True by lia. simpl.
    eexists. split; [reflexivity|].
    rewrite last_points_short
      by (rewrite length_app; unfold kGraphMaxPoints; simpl; lia).
    unfold graph_holds, graph_array_ok, kGraphMaxPoints. simpl.
    rewrite length_insert, length_app. simpl.
    repeat split; try lia.
    + unfold wrap8. rewrite Z.mod_small; lia.
    + intros i Hi.
      destruct (decide (i = length l)) as [->|Hne].
      * replace ((graph_first_y_index st + Z.of_nat (length l)) mod 64) with ins
          by (unfold ins; rewrite Hcount; reflexivity).
        rewrite list_lookup_insert_eq by lia.
        rewrite lookup_app_r by lia. rewrite Nat.sub_diag. reflexivity.
      * rewrite list_lookup_insert_ne
          by (intros Heq; apply Z2Nat.inj in Heq; unfold ins in *;
              Z.to_euclidean_division_equations; lia).
        rewrite lookup_app_l by lia. apply Hget. lia.
Qed.

Lemma graph_holds_appends samples : forall st l,
  graph_holds st l ->
  exists st', appendGraphPoints samples st = Some st'
    /\ graph_holds st' (last_points (l ++ map currentMilliAmpsToDisplayY samples)).
Proof.
  induction samples as [|v rest IH]; intros st l H.
  - exists st. split; [reflexivity|]. simpl. rewrite app_nil_r.
    rewrite last_points_short; [exact H | apply H].
  - destruct (graph_holds_append v st l H) as (st1 & Happ & H1).
    destruct (IH _ _ H1) as (st' & Hrun & H').
    exists st'. split.
    + simpl. rewrite Happ. exact Hrun.
    + rewrite last_points_app in H'. rewrite <- app_assoc in H'. exact H'.
Qed.

Lemma graph_read_from_holds (a : list Z) : forall l index,
  0 <= index < kGraphMaxPoints ->
  (forall i : nat, (i < length l)%nat ->
     a !! Z.to_nat ((index + Z.of_nat i) mod kGraphMaxPoints) = l !! i) ->
  graph_read_from a index (length l) = Some l.
Proof.
  induction l as [|y l IH]; intros index Hidx Hget; [reflexivity|].
  simpl. unfold array_read.
  pose proof (Hget 0%nat ltac:(simpl; lia)) as H0. simpl in H0.
  rewrite Z.add_0_r, Z.mod_small in H0 by exact Hidx. rewrite H0. simpl.
  rewrite IH; [reflexivity | |].
  - rewrite incrementGraphIndex_mod by exact Hidx.
    apply Z.mod_pos_bound. reflexivity.
  - intros i Hi. change (l !! i) with ((y :: l) !! S i).
    rewrite <- (Hget (S i)) by (simpl; lia).
    rewrite incrementGraphIndex_mod by exact Hidx.
    f_equal. f_equal. unfold kGraphMaxPoints in *.
    Z.to_euclidean_division_equations; lia.
Qed.

Lemma graph_entries_holds st l : graph_holds st l -> graph_entries st = Some l.
Proof.
  intros (Hlen & Hfirst & Hcount & Hl & Hget). unfold graph_entries.
  rewrite Hcount, Nat2Z.id. apply graph_read_from_holds; assumption.
Qed.

Lemma graph_segments_polyline (a : list Z) : forall ys index last_x last_y,
  graph_read_from a (incrementGraphIndex index) (length ys) = Some ys ->
  graph_segments a (length ys) index last_x last_y
  = Some (polyline last_x last_y ys).
Proof.
  induction ys as [|y ys IH]; intros index last_x last_y Hread; [reflexivity|].
  simpl in Hread. simpl.
  change (if kGraphMaxPoints <=? wrap8 (index + 1) then 0 else wrap8 (index + 1))
    with (incrementGraphIndex index).
  destruct (array_read a (incrementGraphIndex index)) as [y'|]; [|discriminate].
  simpl in *.
  destruct (graph_read_from a (incrementGraphIndex (incrementGraphIndex index))
              (length ys)) as [ys'|] eqn:Hrest; [|discriminate].
  simpl in Hread. injection Hread as -> ->.
  rewrite (IH _ _ _ Hrest). reflexivity.
Qed.

(** A line-drawing pass joins the buffer's values, oldest first. *)
Lemma drawGraphPage_polyline st y0 ys stripe current average :
  graph_holds st (y0 :: ys) -> 2 <= stripe ->
  drawGraphPage stripe current average st
  = Some ((polyline 0 y0 ys).1
          ++ [DrawLine (wrap8 ((polyline 0 y0 ys).2 + 1)) 63
                       (wrap8 ((polyline 0 y0 ys).2 + 1)) 32]
          ++ (if stripe =? 3 then [DrawLine 0 63 127 63] else [])).
Proof.
  intros Hholds Hstripe.
  pose proof (graph_entries_holds _ _ Hholds) as Hentries.
  pose proof (graph_holds_length _ _ Hholds) as Hcount.
  unfold graph_entries in Hentries. rewrite Hcount, Nat2Z.id in Hentries.
  simpl in Hentries. unfold drawGraphPage.
  destruct (array_read (graph_y_points st) (graph_first_y_index st)) as [y|];
    [|discriminate].
  simpl in Hentries.
  destruct (graph_read_from (graph_y_points st)
              (incrementGraphIndex (graph_first_y_index st)) (length ys))
    as [ys'|] eqn:Hrest; [|discriminate].
  simpl in Hentries. injection Hentries as -> ->.
  replace (Z.to_nat (graph_active_y_count st - 1)) with (length ys)
    by (rewrite Hcount; simpl length; lia).
  replace (stripe =? 0) with false by (symmetry; apply Z.eqb_neq; lia).
  replace (stripe =? 1) with false by (symmetry; apply Z.eqb_neq; lia).
  replace (2 <=? stripe) with true by (symmetry; apply Z.leb_le; lia).
  simpl. rewrite (graph_segments_polyline _ _ _ 0 y0 Hrest).
  simpl. now rewrite <- app_assoc.
Qed.

End GraphBuffer.

Section GraphClaims.
Context {F : FloatOps} {L : Libc}.

(** C1: after [clearGraphBuffer], every run of [appendGraphPoint] calls
    goes through, the buffer never holds more than 64 entries, and
    reading it from the oldest index for [graph_active_y_count] steps,
    wrapping at 64, gives the quantized values of the last
    [min 64 (length samples)] samples in call order. *)
Theorem graph_buffer_keeps_last_samples (samples : list Z) (st : display_state) :
  graph_array_ok st ->
  exists st',
    appendGraphPoints samples (clearGraphBuffer st) = Some st'
    /\ graph_active_y_count st' <= 64
    /\ graph_active_y_count st' = Z.of_nat (min 64 (length samples))
    /\ graph_entries st'
       = Some (map currentMilliAmpsToDisplayY
                 (drop (length samples - min 64 (length samples)) samples)).
Proof.
  intros Hst.
  destruct (graph_holds_appends samples _ _ (graph_holds_clear st Hst))
    as (st' & Hrun & Hholds).
  simpl in Hholds.
  assert (Hlast : last_points (map currentMilliAmpsToDisplayY samples)
                  = map currentMilliAmpsToDisplayY
                      (drop (length samples - min 64 (length samples)) samples)).
  { unfold last_points, kGraphMaxPoints. rewrite length_map, <- skipn_map.
    f_equal. lia. }
  rewrite Hlast in Hholds.
  pose proof (graph_holds_length _ _ Hholds) as Hcount.
  rewrite length_map, length_drop in Hcount.
  exists st'. repeat split.
  - exact Hrun.
  - lia.
  - lia.
  - apply graph_entries_holds, Hholds.
Qed.

Lemma graph_segments_in_bounds (a : list Z) (n : nat) : forall index last_x last_y,
  length a = Z.to_nat kGraphMaxPoints ->
  is_Some (graph_segments a n index last_x last_y).
Proof.
  induction n as [|n IH]; intros index last_x last_y Ha; [eexists; reflexivity|].
  simpl.
  set (index' := if kGraphMaxPoints <=? wrap8 (index + 1) then 0 else wrap8 (index + 1)).
  assert (Hidx : 0 <= index' < kGraphMaxPoints).
  { unfold index', wrap8, kGraphMaxPoints.
    pose proof (Z.mod_pos_bound (index + 1) 256 ltac:(lia)).
    destruct (Z.leb_spec 64 ((index + 1) mod 256)); lia. }
  destruct (lookup_lt_is_Some_2 a (Z.to_nat index')) as [y Hy];
    [unfold kGraphMaxPoints in *; lia|].
  unfold array_read. rewrite Hy. simpl.
  destruct (IH index' (wrap8 (last_x + 2)) y Ha) as [r Hr].
  rewrite Hr. simpl. eexists; reflexivity.
Qed.

(** C10: the index bounds hold after [clearGraphBuffer] and [setup] and
    are kept by [appendGraphPoint]; under them every access to
    [graph_y_points] made by [appendGraphPoint] and [drawGraphPage] is
    inside the array (the checked operations have a result), the read of
    the first point on an empty buffer included. *)
Theorem graph_accesses_in_bounds {M : MessageCodes} (st : display_state) :
  graph_array_ok st ->
  graph_indices_ok (clearGraphBuffer st)
  /\ (forall now, graph_indices_ok (setup now st).2
                  /\ graph_array_ok (setup now st).2)
  /\ (graph_indices_ok st ->
      (forall v, exists st', appendGraphPoint v st = Some st'
                             /\ graph_indices_ok st' /\ graph_array_ok st')
      /\ (forall stripe current average,
            is_Some (drawGraphPage stripe current average st))
      /\ (graph_active_y_count st = 0 ->
          is_Some (array_read (graph_y_points st) (graph_first_y_index st)))).
Proof.
  intros Ha. unfold graph_indices_ok, graph_array_ok, kGraphMaxPoints in *.
  split; [simpl; lia|]. split; [intros now; simpl; split; [lia | exact Ha]|].
  intros [Hfirst Hcount].
  assert (Hread : is_Some (array_read (graph_y_points st) (graph_first_y_index st))).
  { apply lookup_lt_is_Some_2. lia. }
  split; [|split].
  - intros v. unfold appendGraphPoint, array_write.
    destruct (decide (graph_active_y_count st = kGraphMaxPoints)) as [Hfull|Hroom];
      unfold kGraphMaxPoints in *.
    + rewrite decide_True by lia. simpl. eexists. split; [reflexivity|].
      simpl. rewrite length_insert.
      rewrite incrementGraphIndex_mod by (unfold kGraphMaxPoints; lia).
      pose proof (Z.mod_pos_bound (graph_first_y_index st + 1) kGraphMaxPoints
                    ltac:(reflexivity)).
      unfold kGraphMaxPoints in *. lia.
    + assert (Hw : wrap8 (graph_first_y_index st + graph_active_y_count st)
                   = graph_first_y_index st + graph_active_y_count st)
        by (unfold wrap8; rewrite Z.mod_small; lia).
      rewrite Hw.
      destruct (Z.leb_spec 64 (graph_first_y_index st + graph_active_y_count st)).
      * unfold wrap8. rewrite (Z.mod_small (_ - 64)) by lia.
        rewrite decide_True by lia. simpl. eexists. split; [reflexivity|].
        simpl. rewrite length_insert, Z.mod_small; lia.
      * rewrite decide_True by lia. simpl. eexists. split; [reflexivity|].
        unfold wrap8. simpl. rewrite length_insert, Z.mod_small; lia.
  - intros stripe current average. unfold drawGraphPage.
    destruct (2 <=? stripe); simpl; [|eexists; reflexivity].
    destruct Hread as [y Hy]. rewrite Hy. simpl.
    destruct (graph_segments_in_bounds (graph_y_points st)
                (Z.to_nat (graph_active_y_count st - 1))
                (graph_first_y_index st) 0 y Ha) as [r Hr].
    rewrite Hr. simpl. eexists; reflexivity.
  - intros _. exact Hread.
Qed.

(** C9: with no point or one point in the buffer the segment loop of
    [drawGraphPage] runs zero times; a line-drawing pass draws the closing
    vertical line and, on stripe 3, the baseline, and nothing else. *)
Theorem drawGraphPage_few_points (st : display_state) (stripe : Z)
    (current average : string) :
  graph_array_ok st -> graph_indices_ok st ->
  graph_active_y_count st <= 1 -> 2 <= stripe ->
  (forall index last_x last_y,
     graph_segments (graph_y_points st) (Z.to_nat (graph_active_y_count st - 1))
       index last_x last_y = Some ([], last_x))
  /\ drawGraphPage stripe current average st
     = Some (DrawLine 1 63 1 32
               :: (if stripe =? 3 then [DrawLine 0 63 127 63] else [])).
Proof.
  intros Ha [Hfirst Hcount] Hfew Hstripe.
  unfold graph_array_ok, kGraphMaxPoints in *.
  assert (Hn : Z.to_nat (graph_active_y_count st - 1) = 0%nat) by lia.
  split; [intros; rewrite Hn; reflexivity|].
  unfold drawGraphPage. rewrite Hn.
  destruct (lookup_lt_is_Some_2 (graph_y_points st)
              (Z.to_nat (graph_first_y_index st)) ltac:(lia)) as [y Hy].
  unfold array_read. rewrite Hy.
  replace (stripe =? 0) with false by (symmetry; apply Z.eqb_neq; lia).
  replace (stripe =? 1) with false by (symmetry; apply Z.eqb_neq; lia).
  replace (2 <=? stripe) with true by (symmetry; apply Z.leb_le; lia).
  reflexivity.
Qed.

End GraphClaims.

(** ** The current-to-pixel mapping *)

Section MappingClaims.
Context {F : FloatOps}.

(** C4: the mapping never grows with the current on [0, 2000], and above
    2000 it is constant, equal to its value at 2000. *)
Theorem currentMilliAmpsToDisplayY_monotone_clamped :
  FloatAccurate F ->
  (forall v1 v2, 0 <= v1 <= v2 -> v2 <= 2000 ->
     currentMilliAmpsToDisplayY v2 <= currentMilliAmpsToDisplayY v1)
  /\ (forall v, 2000 < v ->
        currentMilliAmpsToDisplayY v = currentMilliAmpsToDisplayY 2000).
Proof.
  intros HF. split.
  - intros v1 v2 Hv Hmax.
    rewrite !(currentMilliAmpsToDisplayY_table HF) by lia.
    pose proof (scaled_table_mono (Z.min v1 2000 + kA) (Z.min v2 2000 + kA)
                  ltac:(unfold kA; lia) ltac:(unfold kA; lia)).
    lia.
  - intros v Hv. unfold currentMilliAmpsToDisplayY.
    replace (2000 <? v) with true by (symmetry; apply Z.ltb_lt; lia).
    reflexivity.
Qed.

(** C5, as the code has it: input 0 gives row 62 and input 2000 gives
    row 33, one row inside the band's bottom row 63 and top row 32;
    input 5000 gives what input 2000 gives. *)
Theorem currentMilliAmpsToDisplayY_endpoints :
  FloatAccurate F ->
  currentMilliAmpsToDisplayY 0 = 62
  /\ currentMilliAmpsToDisplayY 2000 = 33
  /\ currentMilliAmpsToDisplayY 5000 = currentMilliAmpsToDisplayY 2000.
Proof.
  intros HF. rewrite !(currentMilliAmpsToDisplayY_table HF) by lia.
  repeat split; reflexivity.
Qed.

(** C6: whatever the input, the output row lies in the plot band, the
    bottom half [32, 63] of the display. *)
Theorem currentMilliAmpsToDisplayY_in_band (v : Z) :
  FloatAccurate F -> 0 <= v ->
  32 <= currentMilliAmpsToDisplayY v <= 63.
Proof.
  intros HF Hv. rewrite (currentMilliAmpsToDisplayY_table HF) by lia.
  pose proof (scaled_table_range (Z.min v 2000 + kA) ltac:(unfold kA; lia)).
  lia.
Qed.

End MappingClaims.

(** ** The display message *)

Section MessageClaims.
Context {M : MessageCodes} {L : Libc} {U : U8glib}.

Lemma isActiveDisplayMessage_none now st :
  current_display_message_code st = kNone ->
  isActiveDisplayMessage now st = (false, st).
Proof.
  intros H. unfold isActiveDisplayMessage.
  rewrite H, Z.eqb_refl. reflexivity.
Qed.

Lemma isActiveDisplayMessage_running now st :
  message_active now st -> isActiveDisplayMessage now st = (true, st).
Proof.
  intros [Hcode Htime]. unfold isActiveDisplayMessage.
  apply Z.eqb_neq in Hcode. apply Z.ltb_lt in Htime.
  rewrite Hcode, Htime. reflexivity.
Qed.

Lemma isActiveDisplayMessage_expired now st :
  current_display_message_code st <> kNone ->
  current_display_message_min_time_millis st
    <= timeMillis now (time_in_current_display_message st) ->
  isActiveDisplayMessage now st = (false, set_message_code kNone st).
Proof.
  intros Hcode Htime. unfold isActiveDisplayMessage.
  apply Z.eqb_neq in Hcode. apply Z.ltb_ge in Htime.
  rewrite Hcode, Htime. reflexivity.
Qed.

Lemma isActiveDisplayMessage_calls_none times : forall st,
  current_display_message_code st = kNone ->
  isActiveDisplayMessage_calls times st = (map (fun _ => false) times, st).
Proof.
  induction times as [|now rest IH]; intros st H; [reflexivity|].
  simpl. rewrite (isActiveDisplayMessage_none now st H), (IH st H). reflexivity.
Qed.

Lemma isActiveDisplayMessage_calls_sorted times : forall st,
  current_display_message_code st <> kNone ->
  StronglySorted Z.le times ->
  (isActiveDisplayMessage_calls times st).1
  = map (fun now => timeMillis now (time_in_current_display_message st)
                    <? current_display_message_min_time_millis st) times.
Proof.
  induction times as [|now rest IH]; intros st Hcode Hs; [reflexivity|].
  apply StronglySorted_inv in Hs. destruct Hs as [Hs Hall].
  simpl.
  destruct (Z.ltb_spec (timeMillis now (time_in_current_display_message st))
              (current_display_message_min_time_millis st)) as [Hlt|Hge].
  - rewrite (isActiveDisplayMessage_running now st (conj Hcode Hlt)).
    specialize (IH st Hcode Hs).
    destruct (isActiveDisplayMessage_calls rest st) as [answers st2].
    simpl in *. now rewrite IH.
  - rewrite (isActiveDisplayMessage_expired now st Hcode Hge).
    rewrite isActiveDisplayMessage_calls_none by reflexivity.
    simpl. f_equal. apply map_ext_in. intros t Ht.
    rewrite List.Forall_forall in Hall. specialize (Hall t Ht).
    symmetry. apply Z.ltb_ge. unfold timeMillis in *. lia.
Qed.

(** C2: after [activateDisplayMessage] with a code other than NONE at
    clock [now0], a check before [d] milliseconds have elapsed answers
    true and leaves the state alone; a check at or after [d] answers false
    and resets the code to NONE; a check on code NONE answers false; so
    checks at non-decreasing clock readings answer true exactly while the
    elapsed time is below [d]. *)
Theorem display_message_lazy_expiry (now0 code d : Z) (st : display_state) :
  code <> kNone ->
  let st1 := (activateDisplayMessage now0 code d st).2 in
  (forall now, now - now0 < d -> isActiveDisplayMessage now st1 = (true, st1))
  /\ (forall now, d <= now - now0 ->
        isActiveDisplayMessage now st1 = (false, set_message_code kNone st1)
        /\ current_display_message_code (set_message_code kNone st1) = kNone)
  /\ (forall now st', current_display_message_code st' = kNone ->
        isActiveDisplayMessage now st' = (false, st'))
  /\ (forall times, StronglySorted Z.le times ->
        (isActiveDisplayMessage_calls times st1).1
        = map (fun now => now - now0 <? d) times).
Proof.
  intros Hcode st1.
  assert (Hst1 : st1 = set_message code d (restart now0) st).
  { unfold st1, activateDisplayMessage.
    destruct ((code =? kNone) || (code =? current_display_message_code st));
      reflexivity. }
  rewrite Hst1. repeat split.
  - intros now Hnow. apply isActiveDisplayMessage_running. split; [exact Hcode|].
    exact Hnow.
  - apply isActiveDisplayMessage_expired; [exact Hcode | simpl; unfold timeMillis; simpl; lia].
  - intros now st' H. apply isActiveDisplayMessage_none, H.
  - intros times Hs.
    apply (isActiveDisplayMessage_calls_sorted times
             (set_message code d (restart now0) st) Hcode Hs).
Qed.

Lemma renderCurrentDisplayMessage_frame st :
  DrawRFrame 0 0 128 64 5 ∈ renderCurrentDisplayMessage st.
Proof.
  unfold renderCurrentDisplayMessage, pages_trace.
  destruct u8g_more_pages; simpl; rewrite !elem_of_cons; auto.
Qed.

Lemma picture_loop_const {E} (body : E) (more : nat) : forall stripe,
  picture_loop (fun _ => body) more stripe = replicate (S more) body.
Proof.
  induction more as [|more IH]; intros stripe; [reflexivity|].
  simpl in *. f_equal. apply IH.
Qed.

(** C3: while a message is active, [renderGraphPage] and
    [renderSummaryPage] return at once: no call reaches the display and
    the state is as before.  [renderCurrentDisplayMessage] asks nothing
    about the message's timing: in any state it paints the frame, once
    per page. *)
Theorem render_skipped_while_message_active
    (now current average charge seconds : Z) (st st' : display_state) :
  message_active now st ->
  renderGraphPage now current average st = Some ([], st)
  /\ renderSummaryPage now current average charge seconds st = ([], st)
  /\ renderCurrentDisplayMessage st'
     = pages_trace (replicate (S u8g_more_pages) (drawCurrentDisplayMessage st'))
  /\ DrawRFrame 0 0 128 64 5 ∈ renderCurrentDisplayMessage st'.
Proof.
  intros Hactive. unfold renderGraphPage, renderSummaryPage.
  rewrite (isActiveDisplayMessage_running now st Hactive).
  repeat split.
  - unfold renderCurrentDisplayMessage. now rewrite picture_loop_const.
  - apply renderCurrentDisplayMessage_frame.
Qed.

Lemma renderCurrentDisplayMessage_nonempty st : renderCurrentDisplayMessage st <> [].
Proof. unfold renderCurrentDisplayMessage, pages_trace. discriminate. Qed.

(** C7, amended: [activateDisplayMessage] with the NONE code draws nothing,
    and it does store what it was given: the code becomes NONE (an active
    message is cleared), the minimum time becomes [d] and the timer is
    restarted; the graph buffer is untouched. *)
Theorem activateDisplayMessage_none_no_redraw (now d : Z) (st : display_state) :
  activateDisplayMessage now kNone d st
  = ([], set_message kNone d (restart now) st).
Proof.
  unfold activateDisplayMessage. rewrite Z.eqb_refl. reflexivity.
Qed.

(** C8: a second activation of the same code draws nothing; an
    activation of a code that is neither NONE nor the stored one redraws
    the message; in general there is a redraw exactly when the new code is
    not NONE and differs from the code stored before the call, whatever
    the timer and the minimum time say. *)
Theorem activateDisplayMessage_redraw_rule
    (now1 now2 now3 codeA codeB d : Z) (st : display_state) :
  codeB <> kNone -> codeB <> codeA ->
  let st1 := (activateDisplayMessage now1 codeA d st).2 in
  let r2 := activateDisplayMessage now2 codeA d st1 in
  let r3 := activateDisplayMessage now3 codeB d r2.2 in
  r2.1 = []
  /\ r3.1 = renderCurrentDisplayMessage r3.2
  /\ r3.1 <> []
  /\ (forall now code d' s,
        (activateDisplayMessage now code d' s).1 <> []
        <-> code <> kNone /\ code <> current_display_message_code s).
Proof.
  intros HB HAB st1 r2 r3.
  assert (Hst : forall now code d' s,
            (activateDisplayMessage now code d' s).2
            = set_message code d' (restart now) s).
  { intros. unfold activateDisplayMessage.
    destruct ((code =? kNone) || (code =? current_display_message_code s));
      reflexivity. }
  assert (Hrule : forall now code d' s,
            (activateDisplayMessage now code d' s).1 <> []
            <-> code <> kNone /\ code <> current_display_message_code s).
  { intros. unfold activateDisplayMessage.
    destruct (Z.eqb_spec code kNone) as [H1|H1];
      destruct (Z.eqb_spec code (current_display_message_code s)) as [H2|H2];
      simpl; split; try tauto; intros _.
    apply renderCurrentDisplayMessage_nonempty. }
  assert (H2 : r2.1 = []).
  { unfold r2, st1. rewrite Hst. unfold activateDisplayMessage. simpl.
    rewrite Z.eqb_refl, orb_true_r. reflexivity. }
  assert (H3 : r3.1 = renderCurrentDisplayMessage r3.2).
  { unfold r3, r2, st1. rewrite !Hst. unfold activateDisplayMessage. simpl.
    apply Z.eqb_neq in HB, HAB. rewrite HB, HAB. reflexivity. }
  split; [exact H2|]. split; [exact H3|]. split; [|exact Hrule].
  rewrite H3. apply renderCurrentDisplayMessage_nonempty.
Qed.

End MessageClaims.

(** ** Concrete runs *)

Lemma graph_buffer_keeps_last_samples_witness :
  graph_array_ok power_on_state
  /\ exists st',
       @appendGraphPoints exact_float (seqZ 0 70) (clearGraphBuffer power_on_state)
       = Some st'
       /\ graph_active_y_count st' <= 64
       /\ graph_active_y_count st' = 64
       /\ graph_entries st'
          = Some (map (@currentMilliAmpsToDisplayY exact_float) (seqZ 6 64)).
Proof.
  split; [reflexivity|].
  apply (@graph_buffer_keeps_last_samples exact_float (seqZ 0 70) power_on_state).
  reflexivity.
Defined.

Lemma graph_accesses_in_bounds_witness :
  graph_array_ok power_on_state
  /\ graph_indices_ok power_on_state
  /\ exists st', @appendGraphPoint exact_float 150 power_on_state = Some st'
                 /\ graph_indices_ok st' /\ graph_array_ok st'.
Proof.
  assert (Ha : graph_array_ok power_on_state) by reflexivity.
  assert (Hi : graph_indices_ok power_on_state)
    by (unfold graph_indices_ok, kGraphMaxPoints; simpl; lia).
  split; [exact Ha|]. split; [exact Hi|].
  destruct (@graph_accesses_in_bounds exact_float codes_0_1_2
              power_on_state Ha) as (_ & _ & H).
  destruct (H Hi) as (Happend & _).
  exact (Happend 150).
Defined.

Lemma drawGraphPage_few_points_witness :
  graph_array_ok power_on_state /\ graph_indices_ok power_on_state
  /\ graph_active_y_count power_on_state <= 1 /\ 2 <= 3
  /\ @drawGraphPage 3 "   5 ma" "   4 ma" power_on_state
     = Some [DrawLine 1 63 1 32; DrawLine 0 63 127 63].
Proof.
  assert (Ha : graph_array_ok power_on_state) by reflexivity.
  assert (Hi : graph_indices_ok power_on_state)
    by (unfold graph_indices_ok, kGraphMaxPoints; simpl; lia).
  assert (Hc : graph_active_y_count power_on_state <= 1) by (simpl; lia).
  assert (Hs : 2 <= 3) by lia.
  repeat (split; [assumption|]).
  exact (proj2 (@drawGraphPage_few_points power_on_state 3 "   5 ma" "   4 ma"
                  Ha Hi Hc Hs)).
Defined.

Lemma currentMilliAmpsToDisplayY_monotone_clamped_witness :
  FloatAccurate exact_float
  /\ @currentMilliAmpsToDisplayY exact_float 1500
     <= @currentMilliAmpsToDisplayY exact_float 10
  /\ @currentMilliAmpsToDisplayY exact_float 5000
     = @currentMilliAmpsToDisplayY exact_float 2000.
Proof.
  split; [exact exact_float_accurate|].
  destruct (@currentMilliAmpsToDisplayY_monotone_clamped exact_float
              exact_float_accurate) as [Hmono Hclamp].
  split; [apply Hmono; lia | apply Hclamp; lia].
Defined.

Lemma currentMilliAmpsToDisplayY_endpoints_witness :
  FloatAccurate exact_float
  /\ @currentMilliAmpsToDisplayY exact_float 0 = 62
  /\ @currentMilliAmpsToDisplayY exact_float 2000 = 33
  /\ @currentMilliAmpsToDisplayY exact_float 5000
     = @currentMilliAmpsToDisplayY exact_float 2000.
Proof.
  split; [exact exact_float_accurate|].
  exact (@currentMilliAmpsToDisplayY_endpoints exact_float exact_float_accurate).
Defined.

Lemma currentMilliAmpsToDisplayY_in_band_witness :
  FloatAccurate exact_float /\ 0 <= 65535
  /\ 32 <= @currentMilliAmpsToDisplayY exact_float 65535 <= 63.
Proof.
  split; [exact exact_float_accurate|]. split; [lia|].
  apply (@currentMilliAmpsToDisplayY_in_band exact_float 65535
           exact_float_accurate). lia.
Defined.

Lemma display_message_lazy_expiry_witness :
  1 <> @kNone codes_0_1_2
  /\ (@activateDisplayMessage codes_0_1_2 libc_echo u8g_128x64_2x
        0 1 1000 power_on_state).2 = splash_state
  /\ @isActiveDisplayMessage codes_0_1_2 999 splash_state = (true, splash_state)
  /\ @isActiveDisplayMessage codes_0_1_2 1000 splash_state
     = (false, set_message_code 0 splash_state)
  /\ (@isActiveDisplayMessage_calls codes_0_1_2 [0; 500; 999; 1000; 2000] splash_state).1
     = [true; true; true; false; false].
Proof.
  assert (Hcode : 1 <> @kNone codes_0_1_2) by (simpl; lia).
  split; [exact Hcode|]. split; [reflexivity|].
  destruct (@display_message_lazy_expiry codes_0_1_2 libc_echo u8g_128x64_2x
              0 1 1000 power_on_state Hcode) as (Hrun & Hexp & _ & Hcalls).
  split; [apply (Hrun 999); lia|].
  split; [apply (Hexp 1000); lia|].
  apply (Hcalls [0; 500; 999; 1000; 2000]).
  repeat constructor; lia.
Defined.

Lemma render_skipped_while_message_active_witness :
  @message_active codes_0_1_2 10 splash_state
  /\ @renderGraphPage codes_0_1_2 libc_echo u8g_128x64_2x
       10 5 4 splash_state = Some ([], splash_state)
  /\ @renderSummaryPage codes_0_1_2 libc_echo u8g_128x64_2x
       10 5 4 3 2 splash_state = ([], splash_state)
  /\ DrawRFrame 0 0 128 64 5
       ∈ @renderCurrentDisplayMessage codes_0_1_2 libc_echo u8g_128x64_2x
           power_on_state.
Proof.
  assert (Hactive : @message_active codes_0_1_2 10 splash_state)
    by (unfold message_active, timeMillis; simpl; lia).
  split; [exact Hactive|].
  destruct (@render_skipped_while_message_active codes_0_1_2
              libc_echo u8g_128x64_2x 10 5 4 3 2 splash_state power_on_state
              Hactive) as (Hg & Hs & _ & Hframe).
  split; [exact Hg|]. split; [exact Hs | exact Hframe].
Defined.

Lemma activateDisplayMessage_redraw_rule_witness :
  2 <> @kNone codes_0_1_2 /\ 2 <> 1
  /\ (@activateDisplayMessage codes_0_1_2 libc_echo u8g_128x64_2x
        5 1 1000 splash_state).1 = []
  /\ (@activateDisplayMessage codes_0_1_2 libc_echo u8g_128x64_2x
        9 2 1000
        (@activateDisplayMessage codes_0_1_2 libc_echo u8g_128x64_2x
           5 1 1000 splash_state).2).1 <> [].
Proof.
  assert (HB : 2 <> @kNone codes_0_1_2) by (simpl; lia).
  assert (HAB : 2 <> 1) by lia.
  split; [exact HB|]. split; [exact HAB|].
  destruct (@activateDisplayMessage_redraw_rule codes_0_1_2 libc_echo
              u8g_128x64_2x 0 5 9 1 2 1000 power_on_state HB HAB)
    as (H2 & _ & H3 & _).
  split; [exact H2 | exact H3].
Defined.

(** C7 as stated fails: activating NONE over the running splash message
    replaces the message state, and the message is no longer active. *)
Lemma activateDisplayMessage_none_changes_state :
  @message_active codes_0_1_2 10 splash_state
  /\ (@activateDisplayMessage codes_0_1_2 libc_echo u8g_128x64_2x
        10 (@kNone codes_0_1_2) 1000 splash_state).2 <> splash_state
  /\ current_display_message_code
       (@activateDisplayMessage codes_0_1_2 libc_echo u8g_128x64_2x
          10 (@kNone codes_0_1_2) 1000 splash_state).2
     <> current_display_message_code splash_state.
Proof.
  split; [unfold message_active, timeMillis; simpl; lia|].
  split; [intros H; discriminate H | simpl; lia].
Qed.

(** * Further properties *)

(** ** The graph buffer from any well-formed state *)

Section GraphBufferMore.
Context {F : FloatOps}.

(** A well-formed state holds the values found by walking its slots. *)
Lemma graph_holds_of_ok st :
  graph_array_ok st -> graph_indices_ok st -> exists l, graph_holds st l.
Proof.
  intros Ha [Hfirst Hcount].
  unfold graph_array_ok, kGraphMaxPoints in *.
  exists ((fun i : nat =>
             graph_y_points st
               !!! Z.to_nat ((graph_first_y_index st + Z.of_nat i) mod 64))
            <$> seq 0 (Z.to_nat (graph_active_y_count st))).
  unfold graph_holds, graph_array_ok, kGraphMaxPoints.
  rewrite length_fmap, length_seq.
  repeat split; try lia.
  intros i Hi. rewrite list_lookup_fmap, lookup_seq_lt by lia. simpl.
  apply list_lookup_lookup_total_lt.
  pose proof (Z.mod_pos_bound (graph_first_y_index st + Z.of_nat i) 64 ltac:(lia)).
  lia.
Qed.

Lemma graph_holds_ok st l :
  graph_holds st l -> graph_array_ok st /\ graph_indices_ok st.
Proof.
  intros (Ha & Hfirst & Hcount & Hl & _). split; [exact Ha|].
  unfold graph_indices_ok, kGraphMaxPoints in *. lia.
Qed.

(** X1: from any well-formed state, a run of [appendGraphPoint] calls
    goes through and leaves in the buffer the last 64 of the values held
    before followed by the quantized new samples: values are evicted
    oldest first and only when the buffer is full. *)
Theorem appendGraphPoints_fifo (samples : list Z) (st : display_state) :
  graph_array_ok st -> graph_indices_ok st ->
  exists l st',
    graph_entries st = Some l
    /\ appendGraphPoints samples st = Some st'
    /\ graph_entries st'
       = Some (last_points (l ++ map currentMilliAmpsToDisplayY samples))
    /\ graph_array_ok st' /\ graph_indices_ok st'.
Proof.
  intros Ha Hi.
  destruct (graph_holds_of_ok st Ha Hi) as [l Hl].
  destruct (graph_holds_appends samples st l Hl) as (st' & Hrun & Hl').
  exists l, st'. split; [apply graph_entries_holds, Hl|].
  split; [exact Hrun|]. split; [apply graph_entries_holds, Hl'|].
  apply (graph_holds_ok _ _ Hl').
Qed.

Lemma appendGraphPoint_indices v st :
  graph_array_ok st -> graph_indices_ok st ->
  exists st',
    appendGraphPoint v st = Some st'
    /\ graph_array_ok st' /\ graph_indices_ok st'
    /\ graph_active_y_count st' = Z.min 64 (graph_active_y_count st + 1)
    /\ graph_first_y_index st'
       = (graph_first_y_index st
          + (graph_active_y_count st + 1
             - Z.min 64 (graph_active_y_count st + 1))) mod 64.
Proof.
  intros Ha [Hfirst Hcount].
  unfold graph_array_ok, graph_indices_ok, kGraphMaxPoints in *.
  unfold appendGraphPoint, array_write.
  destruct (decide (graph_active_y_count st = kGraphMaxPoints)) as [Hfull|Hroom];
    unfold kGraphMaxPoints in *.
  - rewrite decide_True by lia. simpl. eexists. split; [reflexivity|]. simpl.
    rewrite length_insert.
    rewrite incrementGraphIndex_mod by (unfold kGraphMaxPoints; lia).
    unfold kGraphMaxPoints.
    pose proof (Z.mod_pos_bound (graph_first_y_index st + 1) 64 ltac:(lia)).
    repeat split; try lia.
    f_equal. lia.
  - assert (Hw : wrap8 (graph_first_y_index st + graph_active_y_count st)
                 = graph_first_y_index st + graph_active_y_count st)
      by (unfold wrap8; rewrite Z.mod_small; lia).
    rewrite Hw.
    assert (Hslot : 0 <= (if 64 <=? graph_first_y_index st + graph_active_y_count st
                          then wrap8 (graph_first_y_index st + graph_active_y_count st - 64)
                          else graph_first_y_index st + graph_active_y_count st) < 64).
    { destruct (Z.leb_spec 64 (graph_first_y_index st + graph_active_y_count st));
        [unfold wrap8; rewrite Z.mod_small; lia | lia]. }
    rewrite decide_True by lia. simpl. eexists. split; [reflexivity|]. simpl.
    rewrite length_insert. unfold wrap8.
    rewrite (Z.mod_small (graph_active_y_count st + 1)) by lia.
    repeat split; try lia.
    replace (graph_active_y_count st + 1 - Z.min 64 (graph_active_y_count st + 1))
      with 0 by lia.
    rewrite Z.add_0_r, Z.mod_small; lia.
Qed.

(** X2: after [n] appends from a well-formed state the count is
    [min 64 (count + n)] and the oldest index has advanced, modulo 64, by
    the number of values evicted; the oldest index does not move while
    the buffer fills. *)
Theorem appendGraphPoints_indices (samples : list Z) (st : display_state) :
  graph_array_ok st -> graph_indices_ok st ->
  exists st',
    appendGraphPoints samples st = Some st'
    /\ graph_active_y_count st'
       = Z.min 64 (graph_active_y_count st + Z.of_nat (length samples))
    /\ graph_first_y_index st'
       = (graph_first_y_index st
          + (graph_active_y_count st + Z.of_nat (length samples)
             - Z.min 64 (graph_active_y_count st + Z.of_nat (length samples))))
         mod 64.
Proof.
  revert st. induction samples as [|v rest IH]; intros st Ha Hi.
  - exists st. destruct Hi as [Hfirst Hcount]. unfold kGraphMaxPoints in *.
    split; [reflexivity|]. simpl. split; [lia|].
    replace (graph_active_y_count st + 0 - Z.min 64 (graph_active_y_count st + 0))
      with 0 by lia.
    rewrite Z.add_0_r, Z.mod_small; lia.
  - destruct (appendGraphPoint_indices v st Ha Hi)
      as (st1 & Happ & Ha1 & Hi1 & Hc1 & Hf1).
    destruct (IH st1 Ha1 Hi1) as (st' & Hrun & Hc & Hf).
    exists st'. split; [simpl; rewrite Happ; exact Hrun|].
    destruct Hi as [Hfirst Hcount]. unfold kGraphMaxPoints in *.
    rewrite Hc, Hf, Hc1, Hf1. simpl length.
    split; [lia|].
    rewrite Zplus_mod_idemp_l. f_equal. lia.
Qed.

(** X3: a successful [appendGraphPoint] leaves the display message, its
    minimum time and its timer as they were, and rewrites one slot of the
    array with the quantized sample: every other slot keeps its value. *)
Theorem appendGraphPoint_frame (v : Z) (st st' : display_state) :
  appendGraphPoint v st = Some st' ->
  current_display_message_code st' = current_display_message_code st
  /\ current_display_message_min_time_millis st'
     = current_display_message_min_time_millis st
  /\ time_in_current_display_message st' = time_in_current_display_message st
  /\ exists slot : nat,
       (slot < length (graph_y_points st))%nat
       /\ graph_y_points st'
          = <[slot := currentMilliAmpsToDisplayY v]> (graph_y_points st)
       /\ forall j : nat, j <> slot ->
            graph_y_points st' !! j = graph_y_points st !! j.
Proof.
  unfold appendGraphPoint, array_write. intros H.
  destruct (decide (graph_active_y_count st = kGraphMaxPoints)).
  - destruct (decide (Z.to_nat (graph_first_y_index st)
                      < length (graph_y_points st))%nat) as [Hlt|]; [|discriminate].
    simpl in H. injection H as <-. simpl. repeat split.
    eexists. split; [exact Hlt|]. split; [reflexivity|].
    intros j Hj. now apply list_lookup_insert_ne.
  - match type of H with
    | context [decide (?i < _)%nat] =>
        destruct (decide (i < length (graph_y_points st))%nat) as [Hlt|];
          [|discriminate]
    end.
    simpl in H. injection H as <-. simpl. repeat split.
    eexists. split; [exact Hlt|]. split; [reflexivity|].
    intros j Hj. now apply list_lookup_insert_ne.
Qed.

End GraphBufferMore.

(** ** What a line-drawing pass paints *)

Section GraphLines.
Context {F : FloatOps}.

Lemma polyline_lines : forall ys x y0,
  0 <= x -> x + 2 * Z.of_nat (length ys) <= 255 ->
  polyline x y0 ys = (graph_lines x (y0 :: ys), x + 2 * Z.of_nat (length ys)).
Proof.
  induction ys as [|y ys IH]; intros x y0 Hx Hmax.
  - simpl. f_equal. lia.
  - simpl length in Hmax. cbn [polyline].
    assert (Hw : wrap8 (x + 2) = x + 2) by (unfold wrap8; rewrite Z.mod_small; lia).
    rewrite Hw, (IH (x + 2) y) by lia. simpl. f_equal. lia.
Qed.

Lemma drawGraphPage_lines_holds st l stripe current average :
  graph_holds st l -> 2 <= stripe ->
  drawGraphPage stripe current average st
  = Some (graph_lines 0 l
          ++ [DrawLine (Z.max 1 (2 * graph_active_y_count st - 1)) 63
                       (Z.max 1 (2 * graph_active_y_count st - 1)) 32]
          ++ (if stripe =? 3 then [DrawLine 0 63 127 63] else [])).
Proof.
  intros Hholds Hstripe.
  pose proof (graph_holds_length _ _ Hholds) as Hcount.
  destruct l as [|y0 ys].
  - destruct Hholds as (Ha & Hfirst & _ & _ & _).
    unfold graph_array_ok, kGraphMaxPoints in *.
    simpl in Hcount. rewrite Hcount. unfold drawGraphPage. rewrite Hcount.
    destruct (lookup_lt_is_Some_2 (graph_y_points st)
                (Z.to_nat (graph_first_y_index st)) ltac:(lia)) as [y Hy].
    unfold array_read. rewrite Hy.
    replace (stripe =? 0) with false by (symmetry; apply Z.eqb_neq; lia).
    replace (stripe =? 1) with false by (symmetry; apply Z.eqb_neq; lia).
    replace (2 <=? stripe) with true by (symmetry; apply Z.leb_le; lia).
    reflexivity.
  - rewrite (drawGraphPage_polyline st y0 ys stripe current average Hholds Hstripe).
    destruct Hholds as (_ & _ & _ & Hlen & _).
    unfold kGraphMaxPoints in Hlen. simpl length in Hlen, Hcount.
    rewrite polyline_lines by lia. simpl fst. simpl snd.
    replace (wrap8 (0 + 2 * Z.of_nat (length ys) + 1))
      with (Z.max 1 (2 * graph_active_y_count st - 1))
      by (unfold wrap8; rewrite Z.mod_small; lia).
    reflexivity.
Qed.

Lemma graph_lines_in_band : forall l x,
  0 <= x -> x + 2 * Z.of_nat (length l) <= 128 ->
  Forall (fun y => 32 <= y <= 63) l ->
  Forall in_plot_band (graph_lines x l).
Proof.
  induction l as [|y1 rest IH]; intros x Hx Hmax Hl; [constructor|].
  destruct rest as [|y2 rest']; [constructor|].
  apply Forall_cons in Hl. destruct Hl as [H1 Hrest].
  pose proof (Forall_inv Hrest) as H2. simpl in H2.
  simpl length in *. cbn [graph_lines]. constructor.
  - simpl. lia.
  - apply IH; [lia | simpl length; lia | exact Hrest].
Qed.

(** X5: on a well-formed buffer holding [l], a pass with stripe 2 or
    more draws the segment from [(2 i, l_i)] to [(2 i + 2, l_(i+1))] for
    each pair of neighbours, oldest first, then the closing vertical line
    one column right of the newest point (column 1 on an empty buffer),
    and on stripe 3 the baseline; the [uint8] coordinates never wrap. *)
Theorem drawGraphPage_lines (st : display_state) (l : list Z) (stripe : Z)
    (current average : string) :
  graph_array_ok st -> graph_indices_ok st ->
  graph_entries st = Some l -> 2 <= stripe ->
  drawGraphPage stripe current average st
  = Some (graph_lines 0 l
          ++ [DrawLine (Z.max 1 (2 * graph_active_y_count st - 1)) 63
                       (Z.max 1 (2 * graph_active_y_count st - 1)) 32]
          ++ (if stripe =? 3 then [DrawLine 0 63 127 63] else [])).
Proof.
  intros Ha Hi Hentries Hstripe.
  destruct (graph_holds_of_ok st Ha Hi) as [l' Hl'].
  rewrite (graph_entries_holds _ _ Hl') in Hentries. injection Hentries as ->.
  apply drawGraphPage_lines_holds; assumption.
Qed.

(** X4: when the floating-point arithmetic is accurate, whatever samples
    were appended since [clearGraphBuffer], every line that any pass of
    [drawGraphPage] draws stays on the columns 0..127 and in the rows
    32..63: the graph never reaches the text rows above the plot band. *)
Theorem graph_stays_in_plot_band (samples : list Z) (st : display_state)
    (stripe : Z) (current average : string) :
  FloatAccurate F -> graph_array_ok st -> Forall (fun v => 0 <= v) samples ->
  exists st' t,
    appendGraphPoints samples (clearGraphBuffer st) = Some st'
    /\ drawGraphPage stripe current average st' = Some t
    /\ Forall in_plot_band t.
Proof.
  intros HF Ha Hsamples.
  destruct (graph_holds_appends samples _ _ (graph_holds_clear st Ha))
    as (st' & Hrun & Hholds).
  simpl in Hholds. exists st'.
  set (l := last_points (map currentMilliAmpsToDisplayY samples)) in *.
  assert (Hband : Forall (fun y => 32 <= y <= 63) l).
  { unfold l, last_points. apply Forall_drop.
    rewrite List.Forall_map. eapply Forall_impl; [exact Hsamples|].
    intros v Hv. simpl in *.
    rewrite (currentMilliAmpsToDisplayY_table HF) by exact Hv.
    pose proof (scaled_table_range (Z.min v 2000 + kA) ltac:(unfold kA; lia)).
    lia. }
  destruct (Z.le_gt_cases 2 stripe) as [Hstripe|Hstripe].
  - eexists. split; [exact Hrun|].
    split; [apply (drawGraphPage_lines_holds st' l); assumption|].
    pose proof (graph_holds_length _ _ Hholds) as Hcount.
    destruct Hholds as (_ & _ & _ & Hlen & _). unfold kGraphMaxPoints in Hlen.
    apply Forall_app. split; [apply graph_lines_in_band; [lia | lia | exact Hband]|].
    apply Forall_app. split.
    + constructor; [simpl; lia | constructor].
    + destruct (stripe =? 3); repeat constructor; lia.
  - unfold drawGraphPage.
    replace (2 <=? stripe) with false by (symmetry; apply Z.leb_gt; lia).
    replace (stripe =? 3) with false by (symmetry; apply Z.eqb_neq; lia).
    eexists. split; [exact Hrun|]. split; [reflexivity|].
    destruct (stripe =? 0), (stripe =? 1); simpl; repeat constructor.
Qed.

End GraphLines.

(** ** The mapping, row by row *)

Section MappingMore.
Local Open Scope R_scope.

Lemma scaled_table_floor n :
  (30 <= n <= 2030)%Z -> scaled_table n = Int_part (log_curve n).
Proof.
  intros Hn. pose proof (scaled_table_curve n Hn) as Hc.
  apply Int_part_spec. unfold curve_margin in Hc. lra.
Qed.

Lemma scaled_table_steps :
  forallb (fun n => let d := (scaled_table (n + 1) - scaled_table n)%Z in
                    (0 <=? d)%Z && (d <=? 1)%Z)
    (seqZ 30 2000) = true.
Proof. vm_compute. reflexivity. Qed.

Lemma row_current_rows :
  forallb (fun r => let v := row_current r in
                    (0 <=? v)%Z && (v <=? 2000)%Z
                    && (scaled_table (v + 30) =? 63 - r)%Z)
    (seqZ 33 30) = true.
Proof. vm_compute. reflexivity. Qed.

(** X9: under the accuracy model the rounding of the platform plays no
    part in the result: the row is [63 - floor (7 ln (v' + 30) - 45/2)]
    with [v'] the input clipped to 2000, so any two accurate arithmetics
    give the same row for every input. *)
Theorem currentMilliAmpsToDisplayY_floor (F F' : FloatOps) (v : Z) :
  FloatAccurate F -> FloatAccurate F' -> (0 <= v)%Z ->
  currentMilliAmpsToDisplayY (F := F) v
  = (63 - Int_part (7 * ln (IZR (Z.min v 2000 + 30)) - 45 / 2))%Z
  /\ currentMilliAmpsToDisplayY (F := F) v = currentMilliAmpsToDisplayY (F := F') v.
Proof.
  intros HF HF' Hv.
  rewrite (currentMilliAmpsToDisplayY_table HF), (currentMilliAmpsToDisplayY_table HF')
    by exact Hv.
  split; [|reflexivity].
  rewrite scaled_table_floor by (unfold kA; lia). reflexivity.
Qed.

(** X10: under the accuracy model the mapping uses the rows 33..62 and
    no other: it never returns 32 or 63, from one milliamp to the next it
    stays or goes up by one row, never more, and each row from 33 to 62 is
    the image of some current in [0, 2000]. *)
Theorem currentMilliAmpsToDisplayY_rows (F : FloatOps) :
  FloatAccurate F ->
  (forall v, 0 <= v -> 33 <= currentMilliAmpsToDisplayY v <= 62)%Z
  /\ (forall v, 0 <= v ->
        currentMilliAmpsToDisplayY (v + 1) <= currentMilliAmpsToDisplayY v
        <= currentMilliAmpsToDisplayY (v + 1) + 1)%Z
  /\ (forall r, 33 <= r <= 62 ->
        0 <= row_current r <= 2000
        /\ currentMilliAmpsToDisplayY (row_current r) = r)%Z.
Proof.
  intros HF. split; [|split].
  - intros v Hv. rewrite (currentMilliAmpsToDisplayY_table HF) by exact Hv.
    pose proof (scaled_table_range (Z.min v 2000 + kA) ltac:(unfold kA; lia)).
    lia.
  - intros v Hv. rewrite !(currentMilliAmpsToDisplayY_table HF) by lia.
    destruct (Z.le_gt_cases 2000 v) as [Hbig|Hsmall].
    + rewrite !Z.min_r by lia. lia.
    + rewrite !Z.min_l by lia. unfold kA.
      pose proof scaled_table_steps as Hs. rewrite forallb_forall in Hs.
      specialize (Hs (v + 30)%Z). rewrite <- list_elem_of_In, elem_of_seqZ in Hs.
      specialize (Hs ltac:(lia)). simpl in Hs.
      apply andb_true_iff in Hs. destruct Hs as [H0 H1].
      apply Z.leb_le in H0, H1.
      replace (v + 1 + 30)%Z with (v + 30 + 1)%Z by lia. lia.
  - intros r Hr.
    pose proof row_current_rows as Hrows. rewrite forallb_forall in Hrows.
    specialize (Hrows r). rewrite <- list_elem_of_In, elem_of_seqZ in Hrows.
    specialize (Hrows ltac:(lia)). simpl in Hrows.
    rewrite !andb_true_iff in Hrows. destruct Hrows as [[H0 H1] H2].
    apply Z.leb_le in H0, H1. apply Z.eqb_eq in H2.
    split; [lia|].
    rewrite (currentMilliAmpsToDisplayY_table HF) by lia.
    rewrite Z.min_l by lia. unfold kA. lia.
Qed.

End MappingMore.

(** ** The display message over time *)

Section MessageMore.
Context {M : MessageCodes} {L : Libc} {U : U8glib}.

Lemma isActiveDisplayMessage_false_code now st st' :
  isActiveDisplayMessage now st = (false, st') ->
  current_display_message_code st' = kNone.
Proof.
  unfold isActiveDisplayMessage.
  destruct (Z.eqb_spec (current_display_message_code st) kNone) as [Hnone|Hcode].
  - intros H. injection H as <-. exact Hnone.
  - destruct (_ <? _); intros H; [discriminate|]. injection H as <-. reflexivity.
Qed.

Lemma isActiveDisplayMessage_true_state now st st' :
  isActiveDisplayMessage now st = (true, st') -> st' = st /\ message_active now st.
Proof.
  unfold isActiveDisplayMessage, message_active.
  destruct (Z.eqb_spec (current_display_message_code st) kNone) as [Hnone|Hcode];
    [discriminate|].
  destruct (Z.ltb_spec (timeMillis now (time_in_current_display_message st))
              (current_display_message_min_time_millis st));
    intros Heq; [|discriminate].
  injection Heq as <-. auto.
Qed.

Lemma activateDisplayMessage_state now code d st :
  (activateDisplayMessage now code d st).2 = set_message code d (restart now) st.
Proof.
  unfold activateDisplayMessage.
  destruct ((code =? kNone) || (code =? current_display_message_code st));
    reflexivity.
Qed.

(** X6: once [isActiveDisplayMessage] has answered false, the code is
    NONE and every later check answers false and changes nothing, at any
    clock reading, until the next activation; so the answers to any
    sequence of checks, sorted or not, are some trues followed by falses
    only. *)
Theorem isActiveDisplayMessage_false_stays (now : Z) (st st' : display_state) :
  isActiveDisplayMessage now st = (false, st') ->
  current_display_message_code st' = kNone
  /\ (forall now', isActiveDisplayMessage now' st' = (false, st'))
  /\ (forall times,
        (isActiveDisplayMessage_calls times st').1 = map (fun _ => false) times)
  /\ (forall times, exists k : nat,
        (isActiveDisplayMessage_calls times st).1
        = replicate k true ++ replicate (length times - k) false).
Proof.
  intros H. pose proof (isActiveDisplayMessage_false_code _ _ _ H) as Hnone.
  split; [exact Hnone|]. split; [|split].
  - intros now'. apply isActiveDisplayMessage_none, Hnone.
  - intros times. now rewrite isActiveDisplayMessage_calls_none.
  - clear. intros times. induction times as [|t rest IH].
    + exists 0%nat. reflexivity.
    + simpl. destruct (isActiveDisplayMessage t st) as [[|] st1] eqn:Ht.
      * apply isActiveDisplayMessage_true_state in Ht. destruct Ht as [-> _].
        destruct IH as [k Hk].
        destruct (isActiveDisplayMessage_calls rest st) as [answers st2].
        simpl in *. exists (S k). rewrite Hk. reflexivity.
      * apply isActiveDisplayMessage_false_code in Ht.
        rewrite isActiveDisplayMessage_calls_none by exact Ht.
        exists 0%nat. simpl. f_equal.
        clear. induction rest; simpl; congruence.
Qed.

(** X7: a message is activated, its time runs out, and the same code is
    activated again.  If nothing checked the message in between, the
    second activation draws nothing and the message is active for another
    [d] milliseconds; if a check saw the expiry, the second activation
    paints the overlay again. *)
Theorem reactivation_after_timeout (now0 now1 now2 code d : Z) (st : display_state) :
  code <> kNone -> d <= now1 - now0 ->
  let st1 := (activateDisplayMessage now0 code d st).2 in
  let unchecked := activateDisplayMessage now2 code d st1 in
  let checked := activateDisplayMessage now2 code d (isActiveDisplayMessage now1 st1).2 in
  unchecked.1 = []
  /\ (forall now, now - now2 < d -> message_active now unchecked.2)
  /\ checked.1 = renderCurrentDisplayMessage checked.2
  /\ checked.1 <> []
  /\ checked.2 = unchecked.2.
Proof.
  intros Hcode Hd st1 unchecked checked.
  assert (Hst1 : st1 = set_message code d (restart now0) st)
    by apply activateDisplayMessage_state.
  assert (Hexp : isActiveDisplayMessage now1 st1 = (false, set_message_code kNone st1)).
  { rewrite Hst1. apply isActiveDisplayMessage_expired; [exact Hcode|].
    simpl. unfold timeMillis. simpl. lia. }
  assert (Hu : unchecked.1 = []).
  { unfold unchecked, activateDisplayMessage. rewrite Hst1. simpl.
    rewrite Z.eqb_refl, orb_true_r. reflexivity. }
  assert (Hc : checked.1 = renderCurrentDisplayMessage checked.2).
  { unfold checked. rewrite Hexp. unfold activateDisplayMessage. simpl.
    apply Z.eqb_neq in Hcode. rewrite Hcode. reflexivity. }
  split; [exact Hu|]. split; [|split; [exact Hc|split]].
  - intros now Hnow. unfold unchecked. rewrite activateDisplayMessage_state.
    split; [exact Hcode | simpl; unfold timeMillis; simpl; lia].
  - rewrite Hc. apply renderCurrentDisplayMessage_nonempty.
  - unfold checked, unchecked. rewrite !activateDisplayMessage_state, Hexp, Hst1.
    reflexivity.
Qed.

(** X8: a minimum time of zero gives a message that is painted when its
    code is new but holds nothing back: from the activation on, every
    check answers false and the next page render draws. *)
Theorem activateDisplayMessage_zero_time
    (now0 now code current average charge seconds : Z) (st : display_state) :
  code <> kNone -> code <> current_display_message_code st -> now0 <= now ->
  let r := activateDisplayMessage now0 code 0 st in
  r.1 = renderCurrentDisplayMessage r.2
  /\ (isActiveDisplayMessage now r.2).1 = false
  /\ (renderSummaryPage now current average charge seconds r.2).1 <> [].
Proof.
  intros Hcode Hnew Hnow r.
  assert (Hexp : isActiveDisplayMessage now r.2 = (false, set_message_code kNone r.2)).
  { unfold r. rewrite activateDisplayMessage_state.
    apply isActiveDisplayMessage_expired; [exact Hcode|].
    simpl. unfold timeMillis. simpl. lia. }
  split; [|split].
  - unfold r, activateDisplayMessage.
    apply Z.eqb_neq in Hcode, Hnew. rewrite Hcode, Hnew. reflexivity.
  - now rewrite Hexp.
  - unfold renderSummaryPage. rewrite Hexp. unfold pages_trace. discriminate.
Qed.

(** X14: after [setup] the graph buffer is empty, no check finds a message
    active at any clock reading, the next page render draws, and the
    first activation of any code other than NONE paints its overlay. *)
Theorem setup_then (now : Z) (st : display_state) :
  let st0 := (setup now st).2 in
  graph_entries st0 = Some []
  /\ (forall now', isActiveDisplayMessage now' st0 = (false, st0))
  /\ (forall now' current average charge seconds,
        (renderSummaryPage now' current average charge seconds st0).1 <> [])
  /\ (forall now' code d, code <> kNone ->
        (activateDisplayMessage now' code d st0).1
        = renderCurrentDisplayMessage (activateDisplayMessage now' code d st0).2).
Proof.
  intros st0.
  assert (Hnone : current_display_message_code st0 = kNone) by reflexivity.
  split; [reflexivity|]. split; [|split].
  - intros now'. apply isActiveDisplayMessage_none, Hnone.
  - intros. unfold renderSummaryPage.
    rewrite (isActiveDisplayMessage_none _ _ Hnone). unfold pages_trace. discriminate.
  - intros now' code d Hcode. unfold activateDisplayMessage. rewrite Hnone.
    apply Z.eqb_neq in Hcode. rewrite Hcode. reflexivity.
Qed.

End MessageMore.

(** ** Page rendering *)

Section RenderMore.
Context {F : FloatOps} {M : MessageCodes} {L : Libc} {U : U8glib}.

Lemma drawGraphPage_in_bounds st stripe current average :
  graph_array_ok st -> graph_indices_ok st ->
  is_Some (drawGraphPage stripe current average st).
Proof.
  intros Ha [Hfirst Hcount]. unfold graph_array_ok, kGraphMaxPoints in *.
  unfold drawGraphPage.
  destruct (2 <=? stripe); simpl; [|eexists; reflexivity].
  destruct (lookup_lt_is_Some_2 (graph_y_points st)
              (Z.to_nat (graph_first_y_index st)) ltac:(lia)) as [y Hy].
  unfold array_read. rewrite Hy. simpl.
  destruct (graph_segments_in_bounds (graph_y_points st)
              (Z.to_nat (graph_active_y_count st - 1))
              (graph_first_y_index st) 0 y Ha) as [r Hr].
  rewrite Hr. simpl. eexists; reflexivity.
Qed.

Lemma picture_loop_Forall {E} (P : E -> Prop) (body : Z -> E) (more : nat) :
  (forall stripe, P (body stripe)) ->
  forall stripe, Forall P (picture_loop body more stripe).
Proof.
  intros HP. induction more as [|more IH]; intros stripe; simpl.
  - constructor; [apply HP | constructor].
  - constructor; [apply HP | apply IH].
Qed.

Lemma length_picture_loop {E} (body : Z -> E) (more : nat) :
  forall stripe, length (picture_loop body more stripe) = S more.
Proof.
  induction more as [|more IH]; intros stripe; [reflexivity|].
  simpl in *. f_equal. apply IH.
Qed.

Lemma isActiveDisplayMessage_answer now st :
  (isActiveDisplayMessage now st).1 = true <-> message_active now st.
Proof.
  split.
  - destruct (isActiveDisplayMessage now st) as [b st'] eqn:H. simpl.
    intros ->. apply (isActiveDisplayMessage_true_state _ _ _ H).
  - intros H. now rewrite (isActiveDisplayMessage_running now st H).
Qed.

(** X11: on a well-formed buffer [renderGraphPage] always has a result,
    and it and [renderSummaryPage] draw exactly when no message is active:
    their trace is empty if and only if the message is active; the state
    they return is the one the check leaves behind, so a render changes
    nothing but the code of an expired message. *)
Theorem render_iff_no_message
    (now current average charge seconds : Z) (st : display_state) :
  graph_array_ok st -> graph_indices_ok st ->
  exists t,
    renderGraphPage now current average st
    = Some (t, (isActiveDisplayMessage now st).2)
    /\ (t = [] <-> message_active now st)
    /\ ((renderSummaryPage now current average charge seconds st).1 = []
        <-> message_active now st)
    /\ (renderSummaryPage now current average charge seconds st).2
       = (isActiveDisplayMessage now st).2.
Proof.
  intros Ha Hi. unfold renderGraphPage, renderSummaryPage.
  pose proof (isActiveDisplayMessage_answer now st) as Hanswer.
  destruct (isActiveDisplayMessage now st) as [[|] st1] eqn:Hcheck; simpl in *.
  - assert (Hactive : message_active now st) by (apply Hanswer; reflexivity).
    exists []. split; [reflexivity|]. split; [tauto|]. split; [tauto | reflexivity].
  - assert (Hgraph : graph_array_ok st1 /\ graph_indices_ok st1).
    { unfold isActiveDisplayMessage in Hcheck.
      destruct (_ =? _); [injection Hcheck as <-; auto|].
      destruct (_ <? _); [discriminate|]. injection Hcheck as <-. auto. }
    destruct Hgraph as [Ha1 Hi1].
    destruct (mapM_is_Some_2 (fun p : option (list u8g_call) => p)
                (picture_loop
                   (fun stripe =>
                      drawGraphPage stripe (snprintf 10 "%4d ma" current)
                        (snprintf 10 "%4d ma" average) st1)
                   u8g_more_pages 0)) as [passes Hpasses].
    { apply picture_loop_Forall. intros stripe.
      apply drawGraphPage_in_bounds; assumption. }
    rewrite Hpasses. simpl. eexists. split; [reflexivity|].
    assert (Hno : ~ message_active now st).
    { intros H. apply Hanswer in H. discriminate. }
    unfold pages_trace.
    split; [split; [discriminate | tauto]|].
    split; [split; [discriminate | tauto] | reflexivity].
Qed.

Lemma Forall2_Some_Forall {A} (Q : A -> Prop) (ps : list (option A)) (l : list A) :
  Forall (fun p => forall x, p = Some x -> Q x) ps ->
  Forall2 (fun p x => p = Some x) ps l -> Forall Q l.
Proof.
  intros Hps H. induction H as [|p x ps l Hp _ IH]; [constructor|].
  apply Forall_cons in Hps. destruct Hps as [Hq Hps].
  constructor; [apply Hq, Hp | apply IH, Hps].
Qed.

Ltac solve_plain :=
  repeat (apply List.Forall_cons; [split; reflexivity|]); apply List.Forall_nil.

Lemma count_calls_app p t1 t2 :
  count_calls p (t1 ++ t2) = (count_calls p t1 + count_calls p t2)%nat.
Proof. unfold count_calls. now rewrite List.filter_app, length_app. Qed.

Lemma count_calls_plain t :
  Forall plain_call t ->
  count_calls is_FirstPage t = 0%nat /\ count_calls is_NextPage t = 0%nat.
Proof.
  unfold count_calls. induction 1 as [|c t [Hf Hn] _ [IHf IHn]]; [auto|].
  simpl. rewrite Hf, Hn. auto.
Qed.

Lemma pages_trace_protocol (passes : list (list u8g_call)) :
  passes <> [] -> Forall (Forall plain_call) passes ->
  exists rest,
    pages_trace passes = FirstPage :: rest
    /\ count_calls is_FirstPage rest = 0%nat
    /\ count_calls is_NextPage (pages_trace passes) = length passes
    /\ last (pages_trace passes) = Some NextPage.
Proof.
  intros Hne Hplain. unfold pages_trace. eexists. split; [reflexivity|].
  induction Hplain as [|pass passes Hpass Hplain IH]; [congruence|].
  destruct (count_calls_plain pass Hpass) as [Hf Hn].
  change (FirstPage
          :: concat (map (fun t => t ++ [NextPage]) (pass :: passes)))
    with ([FirstPage] ++ (pass ++ [NextPage])
          ++ concat (map (fun t => t ++ [NextPage]) passes)).
  cbn [map concat].
  rewrite !count_calls_app, Hf, Hn.
  destruct passes as [|pass' passes'].
  - simpl. rewrite app_nil_r. repeat split.
    change (FirstPage :: pass ++ [NextPage]) with ((FirstPage :: pass) ++ [NextPage]).
    apply last_snoc.
  - destruct (IH ltac:(discriminate)) as (IHf & IHn & IHl).
    change (FirstPage
            :: concat (map (fun t => t ++ [NextPage]) (pass' :: passes')))
      with ([FirstPage]
            ++ concat (map (fun t => t ++ [NextPage]) (pass' :: passes')))
      in IHn, IHl.
    rewrite count_calls_app in IHn.
    split; [exact IHf|]. split; [simpl in *; lia|].
    rewrite !last_app. rewrite last_app in IHl.
    destruct (last (concat (map (fun t => t ++ [NextPage]) (pass' :: passes'))));
      [exact IHl|].
    exfalso. simpl in IHl. discriminate.
Qed.

Lemma graph_segments_plain (a : list Z) (n : nat) : forall index last_x last_y r,
  graph_segments a n index last_x last_y = Some r -> Forall plain_call r.1.
Proof.
  induction n as [|n IH]; intros index last_x last_y r H.
  - injection H as <-. constructor.
  - simpl in H.
    destruct (array_read a _) as [y|]; [|discriminate]. simpl in H.
    destruct (graph_segments a n _ _ y) as [r'|] eqn:Hr; [|discriminate].
    simpl in H. injection H as <-. simpl.
    constructor; [split; reflexivity | apply (IH _ _ _ _ Hr)].
Qed.

Lemma drawGraphPage_plain stripe current average st t :
  drawGraphPage stripe current average st = Some t -> Forall plain_call t.
Proof.
  unfold drawGraphPage. intros H.
  assert (Ht2 : forall t2,
            (if 2 <=? stripe
             then last_y ← array_read (graph_y_points st) (graph_first_y_index st);
                  r ← graph_segments (graph_y_points st)
                        (Z.to_nat (graph_active_y_count st - 1))
                        (graph_first_y_index st) 0 last_y;
                  Some (r.1 ++ [DrawLine (wrap8 (r.2 + 1)) 63 (wrap8 (r.2 + 1)) 32])
             else Some []) = Some t2 -> Forall plain_call t2).
  { intros t2 H2. destruct (2 <=? stripe); [|injection H2 as <-; constructor].
    destruct (array_read _ _) as [y|]; [|discriminate]. simpl in H2.
    destruct (graph_segments _ _ _ _ y) as [r|] eqn:Hr; [|discriminate].
    simpl in H2. injection H2 as <-.
    apply Forall_app. split; [apply (graph_segments_plain _ _ _ _ _ _ Hr)|].
    solve_plain. }
  destruct (if 2 <=? stripe then _ else _) as [t2|]; [|discriminate].
  simpl in H. injection H as <-. specialize (Ht2 t2 eq_refl).
  repeat (apply Forall_app; split); try exact Ht2;
    destruct (stripe =? 0), (stripe =? 1), (stripe =? 3); solve_plain.
Qed.

Lemma drawSummaryPage_plain stripe current average charge seconds :
  Forall plain_call (drawSummaryPage stripe current average charge seconds).
Proof.
  unfold drawSummaryPage.
  destruct (stripe =? 0), (stripe =? 1), (stripe =? 2), (stripe =? 3);
    solve_plain.
Qed.

Lemma drawCurrentDisplayMessage_plain st :
  Forall plain_call (drawCurrentDisplayMessage st).
Proof.
  unfold drawCurrentDisplayMessage.
  destruct (current_display_message_code st =? kSplashScreen),
    (current_display_message_code st =? kAnalysisReset); solve_plain.
Qed.

Lemma renderCurrentDisplayMessage_protocol st :
  exists rest,
    renderCurrentDisplayMessage st = FirstPage :: rest
    /\ count_calls is_FirstPage rest = 0%nat
    /\ count_calls is_NextPage (renderCurrentDisplayMessage st) = S u8g_more_pages
    /\ last (renderCurrentDisplayMessage st) = Some NextPage.
Proof.
  unfold renderCurrentDisplayMessage.
  rewrite <- (length_picture_loop (fun _ : Z => drawCurrentDisplayMessage st)
                u8g_more_pages 0).
  apply pages_trace_protocol.
  - destruct u8g_more_pages; discriminate.
  - apply picture_loop_Forall. intros _. apply drawCurrentDisplayMessage_plain.
Qed.

(** X12: no call of the module leaves a picture loop half done.  The
    trace of a call either has no page call at all, or it opens with the
    one [firstPage] it contains, calls [nextPage] once after each of the
    [u8g_more_pages + 1] passes, and ends with the last [nextPage]. *)
Theorem run_call_page_protocol (call : display_call) (st st' : display_state)
    (t : list u8g_call) :
  run_call call st = Some (t, st') ->
  (count_calls is_FirstPage t = 0%nat /\ count_calls is_NextPage t = 0%nat)
  \/ (exists rest,
        t = FirstPage :: rest
        /\ count_calls is_FirstPage rest = 0%nat
        /\ count_calls is_NextPage t = S u8g_more_pages
        /\ last t = Some NextPage).
Proof.
  destruct call as [now| |v|now c a|now c a q s| |now code d]; simpl; intros H.
  - injection H as <- <-. left. split; reflexivity.
  - injection H as <- <-. left. split; reflexivity.
  - destruct (appendGraphPoint v st); [|discriminate].
    injection H as <- <-. left. split; reflexivity.
  - unfold renderGraphPage in H.
    destruct (isActiveDisplayMessage now st) as [[|] st1].
    + injection H as <- <-. left. split; reflexivity.
    + destruct (mapM _ _) as [passes|] eqn:Hpasses; [|discriminate].
      simpl in H. injection H as <- <-. right.
      pose proof (length_mapM _ _ _ Hpasses) as Hlen.
      rewrite length_picture_loop in Hlen. rewrite Hlen.
      apply pages_trace_protocol.
      * destruct passes; [discriminate Hlen | discriminate].
      * apply mapM_Some_1 in Hpasses.
        refine (Forall2_Some_Forall _ _ _ _ Hpasses).
        apply picture_loop_Forall. intros stripe pass.
        apply drawGraphPage_plain.
  - unfold renderSummaryPage in H.
    destruct (isActiveDisplayMessage now st) as [[|] st1].
    + injection H as <- <-. left. split; reflexivity.
    + injection H as <- <-. right.
      rewrite <- (length_picture_loop
                    (fun stripe => drawSummaryPage stripe c a q s) u8g_more_pages 0).
      apply pages_trace_protocol.
      * destruct u8g_more_pages; discriminate.
      * apply picture_loop_Forall. intros stripe. apply drawSummaryPage_plain.
  - injection H as <- <-. right. apply renderCurrentDisplayMessage_protocol.
  - unfold activateDisplayMessage in H.
    destruct ((code =? kNone) || (code =? current_display_message_code st)).
    + injection H as <- <-. left. split; reflexivity.
    + injection H as <- <-. right. apply renderCurrentDisplayMessage_protocol.
Qed.

End RenderMore.

Section SummaryFields.
Context {M : MessageCodes} {L : Libc} {U : U8glib}.

Lemma drawn_strings_app t1 t2 :
  drawn_strings (t1 ++ t2) = drawn_strings t1 ++ drawn_strings t2.
Proof. apply omap_app. Qed.

Lemma summary_passes_silent c a q t : forall more stripe,
  4 <= stripe -> stripe + Z.of_nat more < 256 ->
  drawn_strings
    (concat (map (fun p => p ++ [NextPage])
               (picture_loop (fun s => drawSummaryPage s c a q t) more stripe)))
  = [].
Proof.
  assert (Hpass : forall stripe, 4 <= stripe ->
            drawn_strings (drawSummaryPage stripe c a q t ++ [NextPage]) = []).
  { intros stripe Hs. unfold drawSummaryPage.
    replace (stripe =? 0) with false by (symmetry; apply Z.eqb_neq; lia).
    replace (stripe =? 1) with false by (symmetry; apply Z.eqb_neq; lia).
    replace (stripe =? 2) with false by (symmetry; apply Z.eqb_neq; lia).
    replace (stripe =? 3) with false by (symmetry; apply Z.eqb_neq; lia).
    reflexivity. }
  induction more as [|more IH]; intros stripe Hs Hmax.
  - cbn [picture_loop map concat]. rewrite app_nil_r. apply Hpass, Hs.
  - cbn [picture_loop map concat]. rewrite drawn_strings_app, Hpass by exact Hs.
    assert (Hw : wrap8 (stripe + 1) = stripe + 1)
      by (unfold wrap8; rewrite Z.mod_small; lia).
    rewrite Hw. apply IH; lia.
Qed.

(** X13: when no message is active and the device makes between 4 and
    256 passes, one [renderSummaryPage] draws each of the four fields
    once, in the order I, Iavg, Q, T: label, formatted value, unit. *)
Theorem renderSummaryPage_fields
    (now current average charge seconds : Z) (st : display_state) :
  (3 <= u8g_more_pages < 256)%nat -> ~ message_active now st ->
  drawn_strings (renderSummaryPage now current average charge seconds st).1
  = ["I"; snprintf 12 "%4d" current; "ma";
     "Iavg"; snprintf 12 "%4d" average; "ma";
     "Q"; snprintf 12 "%4d" charge; "mah";
     "T"; snprintf 12 "%6d" seconds; "sec"]%string.
Proof.
  intros Hpages Hidle. unfold renderSummaryPage.
  destruct (isActiveDisplayMessage now st) as [[|] st1] eqn:Hcheck.
  - exfalso. apply Hidle.
    apply (isActiveDisplayMessage_true_state _ _ _ Hcheck).
  - simpl fst. unfold pages_trace.
    destruct u8g_more_pages as [|[|[|more]]]; try lia.
    cbn [picture_loop map concat].
    change (wrap8 (0 + 1)) with 1. change (wrap8 (1 + 1)) with 2.
    change (wrap8 (2 + 1)) with 3.
    destruct more as [|more].
    + reflexivity.
    + cbn [picture_loop map concat]. change (wrap8 (3 + 1)) with 4.
      change (FirstPage :: ?x) with ([FirstPage] ++ x).
      rewrite !app_assoc, drawn_strings_app.
      rewrite (summary_passes_silent current average charge seconds more 4)
        by lia.
      rewrite app_nil_r. reflexivity.
Qed.

End SummaryFields.

(** ** What the panel shows *)

Section Shown.
Context {F : FloatOps} {M : MessageCodes} {L : Libc} {U : U8glib}.

Lemma renderCurrentDisplayMessage_code st st' :
  current_display_message_code st = current_display_message_code st' ->
  renderCurrentDisplayMessage st = renderCurrentDisplayMessage st'.
Proof.
  intros H. unfold renderCurrentDisplayMessage, drawCurrentDisplayMessage.
  now rewrite H.
Qed.

Lemma shown_after_render st shown :
  shown_after (renderCurrentDisplayMessage st) shown = renderCurrentDisplayMessage st.
Proof. reflexivity. Qed.

Lemma appendGraphPoint_code v st st' :
  appendGraphPoint v st = Some st' ->
  current_display_message_code st' = current_display_message_code st.
Proof.
  unfold appendGraphPoint. intros H.
  destruct (decide (graph_active_y_count st = kGraphMaxPoints));
    destruct (array_write _ _ _); try discriminate;
    simpl in H; injection H as <-; reflexivity.
Qed.

Lemma run_call_keeps_overlay call st shown t st' :
  (current_display_message_code st <> kNone ->
   shown = renderCurrentDisplayMessage st) ->
  run_call call st = Some (t, st') ->
  current_display_message_code st' <> kNone ->
  shown_after t shown = renderCurrentDisplayMessage st'.
Proof.
  intros Hinv Hrun Hcode.
  destruct call as [now| |v|now c a|now c a q s| |now code d]; simpl in Hrun.
  - injection Hrun as <- <-. exfalso. apply Hcode. reflexivity.
  - injection Hrun as <- <-. simpl in *. rewrite (Hinv Hcode).
    now apply renderCurrentDisplayMessage_code.
  - destruct (appendGraphPoint v st) as [st1|] eqn:Happ; [|discriminate].
    simpl in Hrun. injection Hrun as <- <-.
    apply appendGraphPoint_code in Happ. rewrite Happ in Hcode.
    simpl. rewrite (Hinv Hcode). now apply renderCurrentDisplayMessage_code.
  - unfold renderGraphPage in Hrun.
    destruct (isActiveDisplayMessage now st) as [[|] st1] eqn:Hcheck.
    + injection Hrun as <- <-.
      apply isActiveDisplayMessage_true_state in Hcheck. destruct Hcheck as [-> _].
      simpl. apply Hinv, Hcode.
    + destruct (mapM _ _); [|discriminate]. simpl in Hrun.
      injection Hrun as <- <-. exfalso. apply Hcode.
      apply (isActiveDisplayMessage_false_code _ _ _ Hcheck).
  - unfold renderSummaryPage in Hrun.
    destruct (isActiveDisplayMessage now st) as [[|] st1] eqn:Hcheck.
    + injection Hrun as <- <-.
      apply isActiveDisplayMessage_true_state in Hcheck. destruct Hcheck as [-> _].
      simpl. apply Hinv, Hcode.
    + injection Hrun as <- <-. exfalso. apply Hcode.
      apply (isActiveDisplayMessage_false_code _ _ _ Hcheck).
  - injection Hrun as <- <-. apply shown_after_render.
  - unfold activateDisplayMessage in Hrun.
    destruct (Z.eqb_spec code kNone) as [Hnone|Hsome]; simpl in Hrun.
    + injection Hrun as <- <-. exfalso. apply Hcode. exact Hnone.
    + destruct (Z.eqb_spec code (current_display_message_code st)) as [Hsame|Hnew];
        injection Hrun as <- <-.
      * simpl. rewrite Hinv by congruence.
        apply renderCurrentDisplayMessage_code. simpl. congruence.
      * apply shown_after_render.
Qed.

Lemma run_calls_keep_overlay calls : forall st shown st' shown',
  (current_display_message_code st <> kNone ->
   shown = renderCurrentDisplayMessage st) ->
  run_calls calls st shown = Some (st', shown') ->
  current_display_message_code st' <> kNone ->
  shown' = renderCurrentDisplayMessage st'.
Proof.
  induction calls as [|call rest IH]; intros st shown st' shown' Hinv Hrun Hcode.
  - injection Hrun as <- <-. apply Hinv, Hcode.
  - simpl in Hrun.
    destruct (run_call call st) as [[t st1]|] eqn:Hcall; [|discriminate].
    simpl in Hrun. apply (IH st1 (shown_after t shown)); [|exact Hrun|exact Hcode].
    intros Hcode1. apply (run_call_keeps_overlay call st shown t st1); assumption.
Qed.

(** X15: skipping the redraw never leaves a stale picture.  After [setup]
    and any sequence of calls of the module, with whatever clock readings,
    whenever a message code is stored (so whenever a message is active)
    the last picture painted on the panel is the overlay of that code. *)
Theorem overlay_shown_while_code_stored
    (calls : list display_call) (now0 now : Z)
    (st st' : display_state) (shown shown' : list u8g_call) :
  run_calls (CallSetup now0 :: calls) st shown = Some (st', shown') ->
  (current_display_message_code st' <> kNone ->
   shown' = renderCurrentDisplayMessage st')
  /\ (message_active now st' -> shown' = renderCurrentDisplayMessage st').
Proof.
  intros Hrun. simpl in Hrun.
  assert (H : current_display_message_code st' <> kNone ->
              shown' = renderCurrentDisplayMessage st').
  { refine (run_calls_keep_overlay calls (setup now0 st).2
              (shown_after (setup now0 st).1 shown) st' shown' _ Hrun).
    intros Hc. exfalso. apply Hc. reflexivity. }
  split; [exact H|]. intros [Hcode _]. apply H, Hcode.
Qed.

End Shown.

Section GraphPageLabels.
Context {F : FloatOps} {M : MessageCodes} {L : Libc} {U : U8glib}.

Lemma graph_segments_strings (a : list Z) (n : nat) : forall index last_x last_y r,
  graph_segments a n index last_x last_y = Some r -> drawn_strings r.1 = [].
Proof.
  induction n as [|n IH]; intros index last_x last_y r H.
  - injection H as <-. reflexivity.
  - simpl in H.
    destruct (array_read a _) as [y|]; [|discriminate]. simpl in H.
    destruct (graph_segments a n _ _ y) as [r'|] eqn:Hr; [|discriminate].
    simpl in H. injection H as <-. simpl. apply (IH _ _ _ _ Hr).
Qed.

Lemma drawGraphPage_strings stripe current average st t :
  drawGraphPage stripe current average st = Some t ->
  drawn_strings t
  = if stripe =? 0 then ["Current"%string; current]
    else if stripe =? 1 then ["Average"%string; average] else [].
Proof.
  unfold drawGraphPage. intros H.
  destruct (2 <=? stripe) eqn:H2.
  - apply Z.leb_le in H2.
    destruct (array_read _ _) as [y|]; [|discriminate]. simpl in H.
    destruct (graph_segments _ _ _ _ y) as [r|] eqn:Hr; [|discriminate].
    simpl in H. injection H as <-.
    replace (stripe =? 0) with false by (symmetry; apply Z.eqb_neq; lia).
    replace (stripe =? 1) with false by (symmetry; apply Z.eqb_neq; lia).
    simpl. rewrite !drawn_strings_app, (graph_segments_strings _ _ _ _ _ _ Hr).
    destruct (stripe =? 3); reflexivity.
  - apply Z.leb_gt in H2. simpl in H. injection H as <-.
    replace (stripe =? 3) with false by (symmetry; apply Z.eqb_neq; lia).
    destruct (stripe =? 0) eqn:H0; [apply Z.eqb_eq in H0; subst; reflexivity|].
    destruct (stripe =? 1); reflexivity.
Qed.

Lemma graph_passes_silent current average st : forall more stripe passes,
  2 <= stripe -> stripe + Z.of_nat more < 256 ->
  mapM (fun p : option (list u8g_call) => p)
    (picture_loop (fun s => drawGraphPage s current average st) more stripe)
  = Some passes ->
  drawn_strings (concat (map (fun p => p ++ [NextPage]) passes)) = [].
Proof.
  induction more as [|more IH]; intros stripe passes Hs Hmax H;
    cbn [picture_loop] in H; simpl in H;
    destruct (drawGraphPage stripe current average st) as [t|] eqn:Ht;
    try discriminate; simpl in H;
    apply drawGraphPage_strings in Ht;
    replace (stripe =? 0) with false in Ht by (symmetry; apply Z.eqb_neq; lia);
    replace (stripe =? 1) with false in Ht by (symmetry; apply Z.eqb_neq; lia).
  - injection H as <-. simpl. rewrite app_nil_r, drawn_strings_app, Ht. reflexivity.
  - destruct (mapM _ _) as [rest|] eqn:Hrest; [|discriminate].
    simpl in H. injection H as <-.
    cbn [map concat]. rewrite !drawn_strings_app, Ht. simpl.
    assert (Hw : wrap8 (stripe + 1) = stripe + 1)
      by (unfold wrap8; rewrite Z.mod_small; lia).
    rewrite Hw in Hrest. apply (IH (stripe + 1) rest); [lia | lia | exact Hrest].
Qed.

(** X16: when no message is active and the device makes between 2 and
    256 passes, one [renderGraphPage] that has a result draws the label
    and the formatted value of the current and of the average once each,
    in this order, and no other text. *)
Theorem renderGraphPage_labels
    (now current average : Z) (st st' : display_state) (t : list u8g_call) :
  (1 <= u8g_more_pages < 256)%nat -> ~ message_active now st ->
  renderGraphPage now current average st = Some (t, st') ->
  drawn_strings t
  = ["Current"%string; snprintf 10 "%4d ma" current;
     "Average"%string; snprintf 10 "%4d ma" average].
Proof.
  intros Hpages Hidle. unfold renderGraphPage.
  destruct (isActiveDisplayMessage now st) as [[|] st1] eqn:Hcheck.
  - exfalso. apply Hidle. apply (isActiveDisplayMessage_true_state _ _ _ Hcheck).
  - destruct u8g_more_pages as [|more]; [lia|].
    set (bfr1 := snprintf 10 "%4d ma" current).
    set (bfr2 := snprintf 10 "%4d ma" average).
    cbn [picture_loop]. change (wrap8 (0 + 1)) with 1.
    destruct more as [|more]; cbn [picture_loop]; simpl.
    + intros H. injection H as <- <-. reflexivity.
    + change (wrap8 (1 + 1)) with 2.
      destruct (mapM _ _) as [rest|] eqn:Hrest; [|discriminate].
      simpl. intros H. injection H as <- <-. unfold pages_trace.
      cbn [map concat].
      change (FirstPage :: ?x) with ([FirstPage] ++ x).
      rewrite !drawn_strings_app.
      rewrite (graph_passes_silent bfr1 bfr2 st1 more 2 rest) by (lia || exact Hrest).
      reflexivity.
Qed.

(** X17: the graph buffer outlives the overlays.  A call that is not
    [setup], [clearGraphBuffer] or [appendGraphPoint] returns the array,
    the oldest index and the count as it found them; and a call that is
    not [setup] or [activateDisplayMessage] leaves the minimum time and
    the timer alone and either keeps the code or resets it to NONE. *)
Theorem run_call_frame (call : display_call) (st st' : display_state)
    (t : list u8g_call) :
  run_call call st = Some (t, st') ->
  match call with
  | CallSetup _ | CallClearGraphBuffer | CallAppendGraphPoint _ => True
  | _ =>
      graph_y_points st' = graph_y_points st
      /\ graph_first_y_index st' = graph_first_y_index st
      /\ graph_active_y_count st' = graph_active_y_count st
  end
  /\ match call with
     | CallSetup _ | CallActivateDisplayMessage _ _ _ => True
     | _ =>
         current_display_message_min_time_millis st'
         = current_display_message_min_time_millis st
         /\ time_in_current_display_message st' = time_in_current_display_message st
         /\ (current_display_message_code st' = current_display_message_code st
             \/ current_display_message_code st' = kNone)
     end.
Proof.
  assert (Hcheck : forall now b st1,
            isActiveDisplayMessage now st = (b, st1) ->
            (graph_y_points st1 = graph_y_points st
             /\ graph_first_y_index st1 = graph_first_y_index st
             /\ graph_active_y_count st1 = graph_active_y_count st)
            /\ current_display_message_min_time_millis st1
               = current_display_message_min_time_millis st
            /\ time_in_current_display_message st1 = time_in_current_display_message st
            /\ (current_display_message_code st1 = current_display_message_code st
                \/ current_display_message_code st1 = kNone)).
  { intros now b st1. unfold isActiveDisplayMessage.
    destruct (_ =? _); [intros H; injection H as <- <-; auto 10|].
    destruct (_ <? _); intros H; injection H as <- <-; simpl; auto 10. }
  destruct call as [now| |v|now c a|now c a q s| |now code d]; simpl; intros H.
  - auto.
  - injection H as <- <-. simpl. auto.
  - destruct (appendGraphPoint v st) as [st1|] eqn:Happ; [|discriminate].
    simpl in H. injection H as <- <-. split; [exact I|].
    unfold appendGraphPoint in Happ.
    destruct (decide (graph_active_y_count st = kGraphMaxPoints));
      destruct (array_write _ _ _); try discriminate;
      simpl in Happ; injection Happ as <-; simpl; auto.
  - unfold renderGraphPage in H.
    destruct (isActiveDisplayMessage now st) as [[|] st1] eqn:Hc;
      apply Hcheck in Hc.
    + injection H as <- <-. tauto.
    + destruct (mapM _ _); [|discriminate]. simpl in H.
      injection H as <- <-. tauto.
  - unfold renderSummaryPage in H.
    destruct (isActiveDisplayMessage now st) as [[|] st1] eqn:Hc;
      apply Hcheck in Hc; injection H as <- <-; tauto.
  - injection H as <- <-. auto 10.
  - rewrite (surjective_pairing (activateDisplayMessage now code d st)) in H.
    injection H as <- <-. rewrite activateDisplayMessage_state. simpl. auto.
Qed.

End GraphPageLabels.

(** ** Concrete runs of the further properties *)

Lemma power_on_state_ok :
  graph_array_ok power_on_state /\ graph_indices_ok power_on_state.
Proof.
  split; [reflexivity|].
  unfold graph_indices_ok, kGraphMaxPoints; simpl; lia.
Qed.

Lemma two_point_state_ok :
  graph_array_ok two_point_state /\ graph_indices_ok two_point_state.
Proof.
  split; [reflexivity|].
  unfold graph_indices_ok, kGraphMaxPoints; simpl; lia.
Qed.

Lemma appendGraphPoints_fifo_witness :
  graph_array_ok two_point_state /\ graph_indices_ok two_point_state
  /\ exists l st',
       graph_entries two_point_state = Some l
       /\ appendGraphPoints (F := exact_float) [7; 900] two_point_state = Some st'
       /\ graph_entries st'
          = Some (last_points
                    (l ++ map (currentMilliAmpsToDisplayY (F := exact_float)) [7; 900]))
       /\ graph_array_ok st' /\ graph_indices_ok st'.
Proof.
  destruct two_point_state_ok as [Ha Hi].
  split; [exact Ha|]. split; [exact Hi|].
  exact (appendGraphPoints_fifo (F := exact_float) [7; 900] two_point_state Ha Hi).
Defined.

Lemma appendGraphPoints_indices_witness :
  graph_array_ok two_point_state /\ graph_indices_ok two_point_state
  /\ exists st',
       appendGraphPoints (F := exact_float) (seqZ 0 70) two_point_state = Some st'
       /\ graph_active_y_count st' = 64
       /\ graph_first_y_index st' = 8.
Proof.
  destruct two_point_state_ok as [Ha Hi].
  split; [exact Ha|]. split; [exact Hi|].
  exact (appendGraphPoints_indices (F := exact_float) (seqZ 0 70) two_point_state
           Ha Hi).
Defined.

Lemma appendGraphPoint_frame_witness :
  appendGraphPoint (F := exact_float) 150 splash_state
  = Some (set_graph
            (<[0%nat := currentMilliAmpsToDisplayY (F := exact_float) 150]>
               (graph_y_points splash_state)) 0 1 splash_state)
  /\ current_display_message_code
       (set_graph
          (<[0%nat := currentMilliAmpsToDisplayY (F := exact_float) 150]>
             (graph_y_points splash_state)) 0 1 splash_state) = 1.
Proof.
  assert (H : appendGraphPoint (F := exact_float) 150 splash_state
              = Some (set_graph
                        (<[0%nat := currentMilliAmpsToDisplayY (F := exact_float) 150]>
                           (graph_y_points splash_state)) 0 1 splash_state))
    by reflexivity.
  split; [exact H|].
  exact (proj1 (appendGraphPoint_frame (F := exact_float) 150 splash_state _ H)).
Defined.

Lemma graph_stays_in_plot_band_witness :
  FloatAccurate exact_float /\ graph_array_ok power_on_state
  /\ Forall (fun v => 0 <= v) [0; 12; 2000; 65535]
  /\ exists st' t,
       appendGraphPoints (F := exact_float) [0; 12; 2000; 65535]
         (clearGraphBuffer power_on_state) = Some st'
       /\ drawGraphPage 2 "" "" st' = Some t
       /\ Forall in_plot_band t.
Proof.
  assert (Hs : Forall (fun v => 0 <= v) [0; 12; 2000; 65535])
    by (repeat constructor; lia).
  split; [exact exact_float_accurate|].
  split; [exact (proj1 power_on_state_ok)|]. split; [exact Hs|].
  exact (graph_stays_in_plot_band (F := exact_float) [0; 12; 2000; 65535]
           power_on_state 2 "" "" exact_float_accurate (proj1 power_on_state_ok) Hs).
Defined.

Lemma drawGraphPage_lines_witness :
  graph_array_ok two_point_state /\ graph_indices_ok two_point_state
  /\ graph_entries two_point_state = Some [40; 50] /\ 2 <= 3
  /\ drawGraphPage 3 "" "" two_point_state
     = Some [DrawLine 0 40 2 50; DrawLine 3 63 3 32; DrawLine 0 63 127 63].
Proof.
  destruct two_point_state_ok as [Ha Hi].
  assert (He : graph_entries two_point_state = Some [40; 50]) by reflexivity.
  assert (Hs : 2 <= 3) by lia.
  split; [exact Ha|]. split; [exact Hi|]. split; [exact He|]. split; [exact Hs|].
  exact (drawGraphPage_lines two_point_state [40; 50] 3 "" "" Ha Hi He Hs).
Defined.

Lemma currentMilliAmpsToDisplayY_floor_witness :
  FloatAccurate exact_float /\ FloatAccurate skewed_float /\ 0 <= 700
  /\ currentMilliAmpsToDisplayY (F := exact_float) 700
     = 63 - Int_part (7 * ln (IZR (Z.min 700 2000 + 30)) - 45 / 2)%R
  /\ currentMilliAmpsToDisplayY (F := exact_float) 700
     = currentMilliAmpsToDisplayY (F := skewed_float) 700.
Proof.
  assert (Hv : 0 <= 700) by lia.
  split; [exact exact_float_accurate|]. split; [exact skewed_float_accurate|].
  split; [exact Hv|].
  exact (currentMilliAmpsToDisplayY_floor exact_float skewed_float 700
           exact_float_accurate skewed_float_accurate Hv).
Defined.

Lemma currentMilliAmpsToDisplayY_rows_witness :
  FloatAccurate skewed_float
  /\ 33 <= currentMilliAmpsToDisplayY (F := skewed_float) 1234 <= 62
  /\ currentMilliAmpsToDisplayY (F := skewed_float) (row_current 47) = 47.
Proof.
  split; [exact skewed_float_accurate|].
  destruct (currentMilliAmpsToDisplayY_rows skewed_float skewed_float_accurate)
    as (Hrange & _ & Honto).
  split; [apply Hrange; lia | apply Honto; lia].
Defined.

Lemma isActiveDisplayMessage_false_stays_witness :
  isActiveDisplayMessage (M := codes_0_1_2) 1000 splash_state
  = (false, set_message_code 0 splash_state)
  /\ isActiveDisplayMessage (M := codes_0_1_2) 3 (set_message_code 0 splash_state)
     = (false, set_message_code 0 splash_state).
Proof.
  assert (H : isActiveDisplayMessage (M := codes_0_1_2) 1000 splash_state
              = (false, set_message_code 0 splash_state)) by reflexivity.
  split; [exact H|].
  destruct (isActiveDisplayMessage_false_stays (M := codes_0_1_2) 1000
              splash_state _ H) as (_ & Hstay & _).
  exact (Hstay 3).
Defined.

Lemma reactivation_after_timeout_witness :
  1 <> kNone (MessageCodes := codes_0_1_2) /\ 1000 <= 1500 - 0
  /\ (activateDisplayMessage (M := codes_0_1_2) (L := libc_echo) (U := u8g_128x64_2x)
        1600 1 1000
        (activateDisplayMessage (M := codes_0_1_2) (L := libc_echo)
           (U := u8g_128x64_2x) 0 1 1000 power_on_state).2).1 = []
  /\ (activateDisplayMessage (M := codes_0_1_2) (L := libc_echo) (U := u8g_128x64_2x)
        1600 1 1000
        (isActiveDisplayMessage (M := codes_0_1_2) 1500
           (activateDisplayMessage (M := codes_0_1_2) (L := libc_echo)
              (U := u8g_128x64_2x) 0 1 1000 power_on_state).2).2).1 <> [].
Proof.
  assert (Hc : 1 <> kNone (MessageCodes := codes_0_1_2)) by (simpl; lia).
  assert (Hd : 1000 <= 1500 - 0) by lia.
  split; [exact Hc|]. split; [exact Hd|].
  destruct (reactivation_after_timeout (M := codes_0_1_2) (L := libc_echo)
              (U := u8g_128x64_2x) 0 1500 1600 1 1000 power_on_state Hc Hd)
    as (Hu & _ & _ & Hr & _).
  split; [exact Hu | exact Hr].
Defined.

Lemma activateDisplayMessage_zero_time_witness :
  2 <> kNone (MessageCodes := codes_0_1_2)
  /\ 2 <> current_display_message_code splash_state /\ 5 <= 5
  /\ (isActiveDisplayMessage (M := codes_0_1_2) 5
        (activateDisplayMessage (M := codes_0_1_2) (L := libc_echo)
           (U := u8g_128x64_2x) 5 2 0 splash_state).2).1 = false.
Proof.
  assert (Hc : 2 <> kNone (MessageCodes := codes_0_1_2)) by (simpl; lia).
  assert (Hn : 2 <> current_display_message_code splash_state) by (simpl; lia).
  assert (Ht : 5 <= 5) by lia.
  split; [exact Hc|]. split; [exact Hn|]. split; [exact Ht|].
  exact (proj1 (proj2 (activateDisplayMessage_zero_time (M := codes_0_1_2)
                         (L := libc_echo) (U := u8g_128x64_2x)
                         5 5 2 0 0 0 0 splash_state Hc Hn Ht))).
Defined.

Lemma setup_then_witness :
  3 <> kNone (MessageCodes := codes_0_1_2)
  /\ (activateDisplayMessage (M := codes_0_1_2) (L := libc_echo) (U := u8g_128x64_2x)
        9 3 100 (setup (M := codes_0_1_2) 0 splash_state).2).1
     = renderCurrentDisplayMessage (M := codes_0_1_2) (L := libc_echo)
         (U := u8g_128x64_2x)
         (activateDisplayMessage (M := codes_0_1_2) (L := libc_echo)
            (U := u8g_128x64_2x) 9 3 100 (setup (M := codes_0_1_2) 0 splash_state).2).2.
Proof.
  assert (Hc : 3 <> kNone (MessageCodes := codes_0_1_2)) by (simpl; lia).
  split; [exact Hc|].
  destruct (setup_then (M := codes_0_1_2) (L := libc_echo) (U := u8g_128x64_2x)
              0 splash_state) as (_ & _ & _ & H).
  exact (H 9 3 100 Hc).
Defined.

Lemma render_iff_no_message_witness :
  graph_array_ok splash_state /\ graph_indices_ok splash_state
  /\ exists t,
       renderGraphPage (M := codes_0_1_2) (L := libc_echo) (U := u8g_128x64_2x)
         2000 5 4 splash_state
       = Some (t, (isActiveDisplayMessage (M := codes_0_1_2) 2000 splash_state).2)
       /\ (t = [] <-> message_active (M := codes_0_1_2) 2000 splash_state).
Proof.
  assert (Ha : graph_array_ok splash_state) by reflexivity.
  assert (Hi : graph_indices_ok splash_state)
    by (unfold graph_indices_ok, kGraphMaxPoints; simpl; lia).
  split; [exact Ha|]. split; [exact Hi|].
  destruct (render_iff_no_message (M := codes_0_1_2) (L := libc_echo)
              (U := u8g_128x64_2x) 2000 5 4 3 2 splash_state Ha Hi)
    as (t & Hg & Ht & _).
  exists t. split; [exact Hg | exact Ht].
Defined.

Lemma run_call_page_protocol_witness :
  exists t st',
    run_call (F := exact_float) (M := codes_0_1_2) (L := libc_echo)
      (U := u8g_128x64_2x) (CallRenderSummaryPage 0 5 4 3 2) power_on_state
    = Some (t, st')
    /\ count_calls is_FirstPage t = 1%nat
    /\ count_calls is_NextPage t = 4%nat
    /\ last t = Some NextPage.
Proof.
  eexists _, _. split; [reflexivity|].
  destruct (run_call_page_protocol (F := exact_float) (M := codes_0_1_2)
              (L := libc_echo) (U := u8g_128x64_2x)
              (CallRenderSummaryPage 0 5 4 3 2) power_on_state _ _ eq_refl)
    as [[H _]|(rest & Hrest & Hfirst & Hnext & Hlast)]; [discriminate H|].
  split; [reflexivity|]. split; [exact Hnext | exact Hlast].
Defined.

Lemma renderSummaryPage_fields_witness :
  (3 <= u8g_more_pages (U8glib := u8g_128x64_2x) < 256)%nat
  /\ ~ message_active (M := codes_0_1_2) 0 power_on_state
  /\ drawn_strings
       (renderSummaryPage (M := codes_0_1_2) (L := libc_echo) (U := u8g_128x64_2x)
          0 5 4 3 2 power_on_state).1
     = ["I"; "%4d"; "ma"; "Iavg"; "%4d"; "ma"; "Q"; "%4d"; "mah";
        "T"; "%6d"; "sec"]%string.
Proof.
  assert (Hp : (3 <= u8g_more_pages (U8glib := u8g_128x64_2x) < 256)%nat)
    by (simpl; lia).
  assert (Hi : ~ message_active (M := codes_0_1_2) 0 power_on_state)
    by (intros [Hc _]; apply Hc; reflexivity).
  split; [exact Hp|]. split; [exact Hi|].
  exact (renderSummaryPage_fields (M := codes_0_1_2) (L := libc_echo)
           (U := u8g_128x64_2x) 0 5 4 3 2 power_on_state Hp Hi).
Defined.

Lemma renderGraphPage_labels_witness :
  (1 <= u8g_more_pages (U8glib := u8g_128x64_2x) < 256)%nat
  /\ ~ message_active (M := codes_0_1_2) 0 two_point_state
  /\ exists t st',
       renderGraphPage (M := codes_0_1_2) (L := libc_echo) (U := u8g_128x64_2x)
         0 5 4 two_point_state = Some (t, st')
       /\ drawn_strings t = ["Current"; "%4d ma"; "Average"; "%4d ma"]%string.
Proof.
  assert (Hp : (1 <= u8g_more_pages (U8glib := u8g_128x64_2x) < 256)%nat)
    by (simpl; lia).
  assert (Hi : ~ message_active (M := codes_0_1_2) 0 two_point_state)
    by (intros [Hc _]; apply Hc; reflexivity).
  split; [exact Hp|]. split; [exact Hi|].
  eexists _, _. split; [reflexivity|].
  exact (renderGraphPage_labels (M := codes_0_1_2) (L := libc_echo)
           (U := u8g_128x64_2x) 0 5 4 two_point_state _ _ Hp Hi eq_refl).
Defined.

Lemma overlay_shown_while_code_stored_witness :
  exists st' shown',
    run_calls (F := exact_float) (M := codes_0_1_2) (L := libc_echo)
      (U := u8g_128x64_2x)
      [CallSetup 0; CallActivateDisplayMessage 10 1 1000;
       CallRenderSummaryPage 500 5 4 3 2; CallActivateDisplayMessage 1500 1 1000]
      power_on_state [] = Some (st', shown')
    /\ message_active (M := codes_0_1_2) 2000 st'
    /\ shown' = renderCurrentDisplayMessage (M := codes_0_1_2) (L := libc_echo)
                  (U := u8g_128x64_2x) st'.
Proof.
  eexists _, _. split; [reflexivity|].
  split; [unfold message_active, timeMillis; simpl; lia|].
  refine (proj1 (overlay_shown_while_code_stored (F := exact_float)
                   (M := codes_0_1_2) (L := libc_echo) (U := u8g_128x64_2x)
                   [CallActivateDisplayMessage 10 1 1000;
                    CallRenderSummaryPage 500 5 4 3 2;
                    CallActivateDisplayMessage 1500 1 1000]
                   0 0 power_on_state _ [] _ eq_refl) _).
  simpl. lia.
Defined.

Lemma run_call_frame_witness :
  exists t st',
    run_call (F := exact_float) (M := codes_0_1_2) (L := libc_echo)
      (U := u8g_128x64_2x) (CallActivateDisplayMessage 0 1 1000) two_point_state
    = Some (t, st')
    /\ graph_entries st' = Some [40; 50].
Proof.
  eexists _, _. split; [reflexivity|].
  destruct (run_call_frame (F := exact_float) (M := codes_0_1_2) (L := libc_echo)
              (U := u8g_128x64_2x) (CallActivateDisplayMessage 0 1 1000)
              two_point_state _ _ eq_refl) as [(Hp & Hf & Hc) _].
  unfold graph_entries. rewrite Hp, Hf, Hc. reflexivity.
Defined.
